(** * react-speech-to-text: the [useSpeechToText] hook

    A shallow embedding of [src/use-speech-to-text.ts] and of the types it
    uses.  The hook keeps a React state object and five refs; the browser
    supplies a recognition capability (commands [start], [stop], [abort];
    events [start], [result], [error], [end]) and one-shot timers.  Every
    handler runs to completion, so a handler is a function from the world
    before it to the world after it.

    React and time.  [setState(updater)] queues the updater; React runs the
    queued updaters in the order they were queued.  The field [state] of
    the world is the state all queued updaters lead to, so each updater is
    applied where it is queued.  Two things in the source depend on when
    React gets to run:
    - [startListening] and [stopListening] read the state captured by the
      render that created the callback, which is older than [state] when
      the caller holds on to a callback or calls before React has
      rendered again; the captured state is a parameter of these two
      functions;
    - the updater of [recognition.onresult] writes [transcriptRef] when it
      runs, not when it is queued; that write is held in the world until
      [runUpdaters].  React may run an updater as soon as it is queued or
      only when it next renders, so [runUpdaters] may follow a result
      event at once or after other events.

    Conventions of the embedding:
    - a JS string is a [string] of bytes; [toUpperCase] and [toLowerCase]
      act on the ASCII letters (capability error codes and user-agent strings
      are ASCII);
    - an optional property of an object literal is an [optional] value, so
      that object spread can tell a missing key from a key set to
      [undefined];
    - [new Date()] is a clock reading handed to the handler;
    - commands sent to the capability and calls of the user's [onAutoStop]
      callback are appended to logs kept in the world. *)

From Stdlib Require Import Bool Arith ZArith List String Ascii Lia PrimFloat.
Import ListNotations.

Local Open Scope string_scope.
Local Open Scope list_scope.

(* ================================================================== *)
(** ** JavaScript primitives used by the hook *)

Module JS.

(** An own property of an object: missing, present with value
    [undefined], or present with a value. *)
Inductive optional (T : Type) : Type :=
| Absent
| Undefined
| Val (v : T).
Arguments Absent {T}.
Arguments Undefined {T}.
Arguments Val {T} v.

(** [{...a, ...b}] on one key: the key of [b] wins whenever [b] has it. *)
Definition spread {T} (a b : optional T) : optional T :=
  match b with
  | Absent => a
  | _ => b
  end.

(** [x ?? d] *)
Definition nullish {T} (x : optional T) (d : T) : T :=
  match x with
  | Val v => v
  | _ => d
  end.

(** Truthiness of a property holding an object or a function. *)
Definition defined {T} (x : optional T) : bool :=
  match x with
  | Val _ => true
  | _ => false
  end.

Definition is_lower (c : ascii) : bool :=
  (("a" <=? c)%char && (c <=? "z")%char).

Definition is_upper (c : ascii) : bool :=
  (("A" <=? c)%char && (c <=? "Z")%char).

Definition is_digit (c : ascii) : bool :=
  (("0" <=? c)%char && (c <=? "9")%char).

Definition upper_char (c : ascii) : ascii :=
  if is_lower c then ascii_of_nat (nat_of_ascii c - 32) else c.

Definition lower_char (c : ascii) : ascii :=
  if is_upper c then ascii_of_nat (nat_of_ascii c + 32) else c.

Fixpoint map_string (f : ascii -> ascii) (s : string) : string :=
  match s with
  | EmptyString => EmptyString
  | String c s' => String (f c) (map_string f s')
  end.

(** [s.toUpperCase()] *)
Definition toUpperCase (s : string) : string := map_string upper_char s.

(** [s.toLowerCase()] *)
Definition toLowerCase (s : string) : string := map_string lower_char s.

Fixpoint drop (n : nat) (s : string) : string :=
  match n, s with
  | S n', String _ s' => drop n' s'
  | _, _ => s
  end.

(** [s.includes(sub)] *)
Fixpoint includes (sub s : string) : bool :=
  String.prefix sub s ||
  match s with
  | EmptyString => false
  | String _ s' => includes sub s'
  end.

(** [s.replace(pat, rep)] with a string pattern: only the FIRST
    occurrence of [pat] is replaced.  ([rep] is taken literally; the
    hook's replacement text has no [$] pattern.) *)
Fixpoint replace (pat rep s : string) : string :=
  if String.prefix pat s then rep ++ drop (String.length pat) s
  else match s with
       | EmptyString => EmptyString
       | String c s' => String c (replace pat rep s')
       end.

(** Truthiness of a string: non-empty. *)
Definition truthy_string (s : string) : bool :=
  match s with
  | EmptyString => false
  | _ => true
  end.

(** Truthiness of [number | null]: a number other than 0. *)
Definition truthy_number (x : option nat) : bool :=
  match x with
  | Some (S _) => true
  | _ => false
  end.

(** The longest prefix of decimal digits, and what follows it. *)
Fixpoint span_digits (s : string) : string * string :=
  match s with
  | EmptyString => (EmptyString, EmptyString)
  | String c s' =>
      if is_digit c
      then let (d, r) := span_digits s' in (String c d, r)
      else (EmptyString, s)
  end.

(** [Number.parseInt(d, 10)] on a string of decimal digits. *)
Definition parseInt (d : string) : Z :=
  fold_left
    (fun acc c => (10 * acc + (Z.of_nat (nat_of_ascii c) - 48))%Z)
    (list_ascii_of_string d) 0%Z.

End JS.
Import JS.


(* ================================================================== *)
(** ** Types ([types/speech-to-text.ts], [types/speech-recognition.ts]) *)

(** A JS number that is only stored and handed on (a confidence score). *)
Definition number := float.

(** A [Date], as milliseconds since the epoch. *)
Definition Date := Z.

(** [SpeechToTextResult] *)
Record SpeechToTextResult := {
  res_transcript : string;
  res_confidence : number;
  res_isFinal : bool;
  res_timestamp : Date
}.

(** [SpeechToTextStateError]; [browserInfo] is an optional property. *)
Record BrowserInfo := {
  browserName : string;
  reason : string
}.

Record SpeechToTextStateError := {
  code : string;
  message : string;
  name : string;
  browserInfo : option BrowserInfo
}.

(** [SpeechToTextState], the object kept by [useState]. *)
Record SpeechToTextState := {
  isListening : bool;
  isSupported : bool;
  transcript : string;
  interimTranscript : string;
  finalTranscript : string;
  results : list SpeechToTextResult;
  error : option SpeechToTextStateError;
  isInitializing : bool
}.

(** [autoStopOnSilence]: [enabled] is required, the other two keys are
    optional.  The user's callback is known by a tag; calling it is
    recorded in the world. *)
Record AutoStopOnSilence := {
  enabled : bool;
  silenceDuration : optional Z;
  onAutoStop : optional nat
}.

(** [SpeechToTextOptions]: every key is optional, so the same record also
    stands for [Partial<SpeechToTextOptions>]. *)
Record SpeechToTextOptions := {
  continuous : optional bool;
  interimResults : optional bool;
  maxAlternatives : optional Z;
  language : optional string;
  autoStopOnSilence : optional AutoStopOnSilence
}.

(** The configurable properties of a capability instance
    ([SpeechRecognition]).  Its handlers are the fixed closures installed
    by [initializeSpeechRecognition]; they are the functions [onstart],
    [onresult], [onerror] and [onend] below. *)
Record SpeechRecognition := {
  rec_continuous : bool;
  rec_interimResults : bool;
  rec_maxAlternatives : Z;
  rec_lang : string
}.

(** [SpeechRecognitionAlternative] *)
Record SpeechRecognitionAlternative := {
  alt_transcript : string;
  alt_confidence : number
}.

(** [SpeechRecognitionResult]: the alternatives, of which item 0 always
    exists (the handler reads [result[0]] unguarded), and [isFinal]. *)
Record SpeechRecognitionResult := {
  item0 : SpeechRecognitionAlternative;
  items : list SpeechRecognitionAlternative;
  isFinal : bool
}.

(** [SpeechRecognitionEvent] *)
Record SpeechRecognitionEvent := {
  resultIndex : nat;
  ev_results : list SpeechRecognitionResult
}.

(** What a [catch] clause can receive: an [Error] with its message, or any
    other value. *)
Inductive Thrown :=
| ThrownError (msg : string)
| ThrownValue.

(** A recognition constructor found on [window]: calling it with [new]
    either yields an instance or throws. *)
Inductive Constructor :=
| Constructs
| ConstructorThrows (e : Thrown).

Record Navigator := {
  userAgent : string;
  (** the property [navigator.brave]: missing, [undefined], or a value *)
  brave : optional unit
}.

Record Window := {
  navigator : Navigator;
  win_SpeechRecognition : option Constructor;
  win_webkitSpeechRecognition : option Constructor;
  win_mozSpeechRecognition : option Constructor;
  win_msSpeechRecognition : option Constructor
}.

(** The hosting environment: [None] when [typeof window === "undefined"]. *)
Definition Host := option Window.

(** Commands the hook sends to the capability. *)
Inductive Command :=
| CmdStart
| CmdStop
| CmdAbort.

(** What a call of [recognition.start()] does. *)
Inductive StartOutcome :=
| Started
| StartThrows (e : Thrown).

(** [transcriptRef.current] *)
Record TranscriptRef := {
  ref_final : string;
  ref_interim : string
}.

(** The result of [checkBrowserCompatibility]. *)
Record BrowserCheck := {
  bc_isSupported : bool;
  bc_browserName : string;
  bc_reason : string
}.

(* ================================================================== *)
(** ** Capability detection *)

(** [a || b] on constructors: the first one that is there. *)
Definition or_else {T} (a b : option T) : option T :=
  match a with
  | Some _ => a
  | None => b
  end.

(** [getBrowserSpeechRecognition] *)
Definition getBrowserSpeechRecognition (h : Host) : option Constructor :=
  match h with
  | None => None
  | Some w =>
      or_else (win_SpeechRecognition w)
        (or_else (win_webkitSpeechRecognition w)
           (or_else (win_mozSpeechRecognition w)
              (win_msSpeechRecognition w)))
  end.

(** [/Android|webOS|iPhone|iPad|iPod|BlackBerry|IEMobile|Opera Mini/i.test(ua)]:
    some alternative occurs in [ua], letter case ignored. *)
Definition mobile_names : list string :=
  ["Android"; "webOS"; "iPhone"; "iPad"; "iPod"; "BlackBerry"; "IEMobile";
   "Opera Mini"].

Definition test_mobile (ua : string) : bool :=
  existsb (fun n => includes (toLowerCase n) (toLowerCase ua)) mobile_names.

(** [/(Macintosh|Mac OS)/.test(ua)] *)
Definition test_mac (ua : string) : bool :=
  includes "Macintosh" ua || includes "Mac OS" ua.

(** [/OS (\d+)_(\d+)/] tried at the start of [s]: both groups are greedy,
    and what follows the first must be an underscore. *)
Definition match_ios_here (s : string) : option (string * string) :=
  if String.prefix "OS " s then
    let (major, r) := span_digits (drop 3 s) in
    match major, r with
    | String _ _, String "_" r' =>
        let (minor, _) := span_digits r' in
        match minor with
        | String _ _ => Some (major, minor)
        | EmptyString => None
        end
    | _, _ => None
    end
  else None.

(** [ua.match(/OS (\d+)_(\d+)/)]: the leftmost match, as its two groups. *)
Fixpoint match_ios (s : string) : option (string * string) :=
  match match_ios_here s with
  | Some m => Some m
  | None =>
      match s with
      | EmptyString => None
      | String _ s' => match_ios s'
      end
  end.

Definition mkCheck (supported : bool) (bname why : string) : BrowserCheck :=
  {| bc_isSupported := supported; bc_browserName := bname; bc_reason := why |}.

(** [checkBrowserCompatibility] *)
Definition checkBrowserCompatibility (h : Host) : BrowserCheck :=
  match h with
  | None => mkCheck false "Unknown" "Not running in browser environment"
  | Some w =>
      let ua := userAgent (navigator w) in
      let userAgent := toLowerCase ua in
      let isBrave := defined (brave (navigator w)) in
      let isChrome :=
        includes "chrome" userAgent && negb (includes "edg" userAgent)
        && negb isBrave in
      let isEdge := includes "edg" userAgent in
      let isSafari :=
        includes "safari" userAgent && negb (includes "chrome" userAgent) in
      let isFirefox := includes "firefox" userAgent in
      let isOpera := includes "opr" userAgent || includes "opera" userAgent in
      let speechRecognitionExists :=
        match getBrowserSpeechRecognition h with
        | Some _ => true
        | None => false
        end in
      let ifExists (bname why : string) :=
        mkCheck speechRecognitionExists bname
          (if speechRecognitionExists then "" else why) in
      if isBrave then
        mkCheck false "Brave"
          "Brave Browser does not support Web Speech API for privacy reasons"
      else if isFirefox then
        mkCheck false "Firefox" "Firefox does not support Web Speech API"
      else if isOpera then
        ifExists "Opera" "Opera has limited Web Speech API support"
      else if isChrome then
        ifExists "Chrome"
          "Chrome should support Web Speech API but it's not available"
      else if isEdge then
        ifExists "Edge"
          "Edge should support Web Speech API but it's not available"
      else if isSafari then
        let isMobile := test_mobile ua in
        let isMac := test_mac ua in
        let onDesktop :=
          if isMac then
            ifExists "Safari (macOS)"
              "Web Speech API requires Safari 14.1 or later"
          else
            ifExists "Safari"
              "Web Speech API may not be supported on this Safari version" in
        match (if isMobile then match_ios ua else None) with
        | Some (major, minor) =>
            let majorVersion := parseInt major in
            let minorVersion := parseInt minor in
            let isSupported :=
              ((14 <? majorVersion)
               || ((majorVersion =? 14) && (5 <=? minorVersion)))%Z in
            mkCheck (isSupported && speechRecognitionExists) "Safari (iOS)"
              (if negb isSupported
               then "Web Speech API requires iOS 14.5 or later"
               else if negb speechRecognitionExists
                    then "Web Speech API is not available"
                    else "")
        | None => onDesktop
        end
      else
        ifExists "Unknown Browser"
          "This browser does not support Web Speech API"
  end.

(* ================================================================== *)
(** ** The hook's world *)

(** Everything a handler of the hook can read or write: the React state,
    the five refs, and the parts of the browser it talks to (pending
    timeouts, the commands received by the capability, the calls received
    by the user's callback, and how many capability instances were ever
    constructed). *)
Record Hook := {
  host : Host;
  state : SpeechToTextState;
  recognitionRef : option SpeechRecognition;
  lastSpeechTimeRef : option Date;
  silenceTimeoutRef : option nat;
  transcriptRef : TranscriptRef;
  (** the write of [transcriptRef] that a queued updater of
      [recognition.onresult] makes once React runs it, if one is queued *)
  queuedRefWrite : option TranscriptRef;
  optionsRef : SpeechToTextOptions;
  (** pending timeouts: identifier and delay as passed to [setTimeout] *)
  timers : list (nat * optional Z);
  nextTimerId : nat;
  commands : list Command;
  (** calls of [onAutoStop]: the callback's tag and its argument *)
  autoStopCalls : list (nat * string);
  constructed : nat
}.

(** [setState(f)]: the updater [f] is applied to the current state.  The
    other functions of this group write one ref, or one part of the
    browser, and leave the rest of the world as it is. *)
Definition with_state (f : SpeechToTextState -> SpeechToTextState) (w : Hook)
  : Hook :=
  {| host := host w; state := f (state w);
     recognitionRef := recognitionRef w;
     lastSpeechTimeRef := lastSpeechTimeRef w;
     silenceTimeoutRef := silenceTimeoutRef w;
     transcriptRef := transcriptRef w;
     queuedRefWrite := queuedRefWrite w; optionsRef := optionsRef w;
     timers := timers w; nextTimerId := nextTimerId w;
     commands := commands w; autoStopCalls := autoStopCalls w;
     constructed := constructed w |}.

Definition with_recognitionRef (r : option SpeechRecognition) (w : Hook)
  : Hook :=
  {| host := host w; state := state w;
     recognitionRef := r;
     lastSpeechTimeRef := lastSpeechTimeRef w;
     silenceTimeoutRef := silenceTimeoutRef w;
     transcriptRef := transcriptRef w;
     queuedRefWrite := queuedRefWrite w; optionsRef := optionsRef w;
     timers := timers w; nextTimerId := nextTimerId w;
     commands := commands w; autoStopCalls := autoStopCalls w;
     constructed := constructed w |}.

Definition with_lastSpeechTimeRef (t : option Date) (w : Hook) : Hook :=
  {| host := host w; state := state w;
     recognitionRef := recognitionRef w;
     lastSpeechTimeRef := t;
     silenceTimeoutRef := silenceTimeoutRef w;
     transcriptRef := transcriptRef w;
     queuedRefWrite := queuedRefWrite w; optionsRef := optionsRef w;
     timers := timers w; nextTimerId := nextTimerId w;
     commands := commands w; autoStopCalls := autoStopCalls w;
     constructed := constructed w |}.

Definition with_silenceTimeoutRef (t : option nat) (w : Hook) : Hook :=
  {| host := host w; state := state w;
     recognitionRef := recognitionRef w;
     lastSpeechTimeRef := lastSpeechTimeRef w;
     silenceTimeoutRef := t;
     transcriptRef := transcriptRef w;
     queuedRefWrite := queuedRefWrite w; optionsRef := optionsRef w;
     timers := timers w; nextTimerId := nextTimerId w;
     commands := commands w; autoStopCalls := autoStopCalls w;
     constructed := constructed w |}.

Definition with_transcriptRef (t : TranscriptRef) (w : Hook) : Hook :=
  {| host := host w; state := state w;
     recognitionRef := recognitionRef w;
     lastSpeechTimeRef := lastSpeechTimeRef w;
     silenceTimeoutRef := silenceTimeoutRef w;
     transcriptRef := t;
     queuedRefWrite := queuedRefWrite w; optionsRef := optionsRef w;
     timers := timers w; nextTimerId := nextTimerId w;
     commands := commands w; autoStopCalls := autoStopCalls w;
     constructed := constructed w |}.

Definition with_queuedRefWrite (q : option TranscriptRef) (w : Hook) : Hook :=
  {| host := host w; state := state w;
     recognitionRef := recognitionRef w;
     lastSpeechTimeRef := lastSpeechTimeRef w;
     silenceTimeoutRef := silenceTimeoutRef w;
     transcriptRef := transcriptRef w;
     queuedRefWrite := q; optionsRef := optionsRef w;
     timers := timers w; nextTimerId := nextTimerId w;
     commands := commands w; autoStopCalls := autoStopCalls w;
     constructed := constructed w |}.

Definition with_optionsRef (o : SpeechToTextOptions) (w : Hook) : Hook :=
  {| host := host w; state := state w;
     recognitionRef := recognitionRef w;
     lastSpeechTimeRef := lastSpeechTimeRef w;
     silenceTimeoutRef := silenceTimeoutRef w;
     transcriptRef := transcriptRef w;
     queuedRefWrite := queuedRefWrite w; optionsRef := o;
     timers := timers w; nextTimerId := nextTimerId w;
     commands := commands w; autoStopCalls := autoStopCalls w;
     constructed := constructed w |}.

Definition with_timers (ts : list (nat * optional Z)) (next : nat) (w : Hook)
  : Hook :=
  {| host := host w; state := state w;
     recognitionRef := recognitionRef w;
     lastSpeechTimeRef := lastSpeechTimeRef w;
     silenceTimeoutRef := silenceTimeoutRef w;
     transcriptRef := transcriptRef w;
     queuedRefWrite := queuedRefWrite w; optionsRef := optionsRef w;
     timers := ts; nextTimerId := next;
     commands := commands w; autoStopCalls := autoStopCalls w;
     constructed := constructed w |}.

(** The capability receives a command. *)
Definition send (c : Command) (w : Hook) : Hook :=
  {| host := host w; state := state w;
     recognitionRef := recognitionRef w;
     lastSpeechTimeRef := lastSpeechTimeRef w;
     silenceTimeoutRef := silenceTimeoutRef w;
     transcriptRef := transcriptRef w;
     queuedRefWrite := queuedRefWrite w; optionsRef := optionsRef w;
     timers := timers w; nextTimerId := nextTimerId w;
     commands := commands w ++ [c]; autoStopCalls := autoStopCalls w;
     constructed := constructed w |}.

(** The user's callback [cb] is called with [arg]. *)
Definition call_onAutoStop (cb : nat) (arg : string) (w : Hook) : Hook :=
  {| host := host w; state := state w;
     recognitionRef := recognitionRef w;
     lastSpeechTimeRef := lastSpeechTimeRef w;
     silenceTimeoutRef := silenceTimeoutRef w;
     transcriptRef := transcriptRef w;
     queuedRefWrite := queuedRefWrite w; optionsRef := optionsRef w;
     timers := timers w; nextTimerId := nextTimerId w;
     commands := commands w;
     autoStopCalls := autoStopCalls w ++ [(cb, arg)];
     constructed := constructed w |}.

(** A capability instance has been constructed. *)
Definition count_constructed (w : Hook) : Hook :=
  {| host := host w; state := state w;
     recognitionRef := recognitionRef w;
     lastSpeechTimeRef := lastSpeechTimeRef w;
     silenceTimeoutRef := silenceTimeoutRef w;
     transcriptRef := transcriptRef w;
     queuedRefWrite := queuedRefWrite w; optionsRef := optionsRef w;
     timers := timers w; nextTimerId := nextTimerId w;
     commands := commands w; autoStopCalls := autoStopCalls w;
     constructed := S (constructed w) |}.

(** *** The browser's timers *)

(** [window.setTimeout(callback, delay)]: a fresh identifier is handed out
    and the timeout is pending.  The callback is always the one of
    [resetSilenceTimeout], see [silenceCallback]. *)
Definition setTimeout (delay : optional Z) (w : Hook) : nat * Hook :=
  let id := nextTimerId w in
  (id, with_timers (timers w ++ [(id, delay)]) (S id) w).

(** [clearTimeout(id)] *)
Definition clearTimeout (id : nat) (w : Hook) : Hook :=
  with_timers (filter (fun t => negb (Nat.eqb (fst t) id)) (timers w))
    (nextTimerId w) w.

(** Is the timeout [id] pending? *)
Definition pending (id : nat) (w : Hook) : bool :=
  existsb (fun t => Nat.eqb (fst t) id) (timers w).

(** A silence timer is armed when the browser holds a pending timeout of
    the hook. *)
Definition armed (w : Hook) : bool :=
  match timers w with
  | [] => false
  | _ :: _ => true
  end.

(** [optionsRef.current.autoStopOnSilence?.enabled] *)
Definition autoStopEnabled (o : SpeechToTextOptions) : bool :=
  match autoStopOnSilence o with
  | Val a => enabled a
  | _ => false
  end.

(** [{...a, ...b}] on options *)
Definition mergeOptions (a b : SpeechToTextOptions) : SpeechToTextOptions :=
  {| continuous := spread (continuous a) (continuous b);
     interimResults := spread (interimResults a) (interimResults b);
     maxAlternatives := spread (maxAlternatives a) (maxAlternatives b);
     language := spread (language a) (language b);
     autoStopOnSilence :=
       spread (autoStopOnSilence a) (autoStopOnSilence b) |}.

Definition DEFAULT_OPTIONS : SpeechToTextOptions :=
  {| continuous := Val true;
     interimResults := Val true;
     maxAlternatives := Val 1%Z;
     language := Val "en-US";
     autoStopOnSilence :=
       Val {| enabled := false; silenceDuration := Val 3000%Z;
              onAutoStop := Absent |} |}.

(* ================================================================== *)
(** ** State updates ([setState] with an updater over [...prev]) *)

Definition mkError (c m n : string) (b : option BrowserInfo)
  : SpeechToTextStateError :=
  {| code := c; message := m; name := n; browserInfo := b |}.

(** [{...prev, error: e}] *)
Definition set_error (e : option SpeechToTextStateError)
  (prev : SpeechToTextState) : SpeechToTextState :=
  {| isListening := isListening prev; isSupported := isSupported prev;
     transcript := transcript prev;
     interimTranscript := interimTranscript prev;
     finalTranscript := finalTranscript prev; results := results prev;
     error := e; isInitializing := isInitializing prev |}.

(** [{...prev, isListening: b}] *)
Definition set_isListening (b : bool) (prev : SpeechToTextState)
  : SpeechToTextState :=
  {| isListening := b; isSupported := isSupported prev;
     transcript := transcript prev;
     interimTranscript := interimTranscript prev;
     finalTranscript := finalTranscript prev; results := results prev;
     error := error prev; isInitializing := isInitializing prev |}.

(** [{...prev, isSupported: b, isInitializing: false}] *)
Definition set_initialized (b : bool) (prev : SpeechToTextState)
  : SpeechToTextState :=
  {| isListening := isListening prev; isSupported := b;
     transcript := transcript prev;
     interimTranscript := interimTranscript prev;
     finalTranscript := finalTranscript prev; results := results prev;
     error := error prev; isInitializing := false |}.

(** [{...prev, transcript: t, interimTranscript: i, finalTranscript: f,
      results: rs}] *)
Definition set_transcripts (t i f : string) (rs : list SpeechToTextResult)
  (prev : SpeechToTextState) : SpeechToTextState :=
  {| isListening := isListening prev; isSupported := isSupported prev;
     transcript := t; interimTranscript := i; finalTranscript := f;
     results := rs;
     error := error prev; isInitializing := isInitializing prev |}.

(* ================================================================== *)
(** ** The silence watchdog *)

(** The guarded clearing that several handlers repeat:
    [if (silenceTimeoutRef.current) { clearTimeout(...); ... = null; }] *)
Definition clearSilenceTimeout (w : Hook) : Hook :=
  match silenceTimeoutRef w with
  | Some (S n) => with_silenceTimeoutRef None (clearTimeout (S n) w)
  | _ => w
  end.

(** [optionsRef.current.autoStopOnSilence.silenceDuration] *)
Definition silenceDelay (o : SpeechToTextOptions) : optional Z :=
  match autoStopOnSilence o with
  | Val a => silenceDuration a
  | _ => Undefined
  end.

(** [resetSilenceTimeout] *)
Definition resetSilenceTimeout (w : Hook) : Hook :=
  let w1 := clearSilenceTimeout w in
  if autoStopEnabled (optionsRef w1) then
    let (id, w2) := setTimeout (silenceDelay (optionsRef w1)) w1 in
    with_silenceTimeoutRef (Some id) w2
  else w1.

(** The callback that [resetSilenceTimeout] hands to [setTimeout]. *)
Definition silenceCallback (w : Hook) : Hook :=
  let w1 :=
    match recognitionRef w with
    | Some _ => send CmdStop w
    | None => w
    end in
  match autoStopOnSilence (optionsRef w1) with
  | Val a =>
      match onAutoStop a with
      | Val cb =>
          if truthy_string (ref_final (transcriptRef w1))
          then call_onAutoStop cb (ref_final (transcriptRef w1)) w1
          else w1
      | _ => w1
      end
  | _ => w1
  end.

(** The browser fires the pending timeout [id]: it stops being pending and
    its callback runs. *)
Definition fireTimeout (id : nat) (w : Hook) : Hook :=
  silenceCallback (clearTimeout id w).

(* ================================================================== *)
(** ** Initialization *)

(** The properties the hook writes on an instance, from the options. *)
Definition configured (o : SpeechToTextOptions) : SpeechRecognition :=
  {| rec_continuous := nullish (continuous o) true;
     rec_interimResults := nullish (interimResults o) true;
     rec_maxAlternatives := nullish (maxAlternatives o) 1%Z;
     rec_lang := nullish (language o) "en-US" |}.

(** [error instanceof Error ? error.message : fallback] *)
Definition thrownMessage (e : Thrown) (fallback : string) : string :=
  match e with
  | ThrownError m => m
  | ThrownValue => fallback
  end.

(** [initializeSpeechRecognition]: the instance or [null], and the world
    after the call. *)
Definition initializeSpeechRecognition (w : Hook)
  : option SpeechRecognition * Hook :=
  let browserCheck := checkBrowserCompatibility (host w) in
  if negb (bc_isSupported browserCheck) then
    (None,
     with_state
       (fun prev =>
          set_error
            (Some (mkError "NOT_SUPPORTED" (bc_reason browserCheck)
                     "NotSupportedError"
                     (Some {| browserName := bc_browserName browserCheck;
                              reason := bc_reason browserCheck |})))
            (set_initialized false prev)) w)
  else
    match getBrowserSpeechRecognition (host w) with
    | None =>
        (None,
         with_state
           (fun prev =>
              set_error
                (Some (mkError "NOT_SUPPORTED"
                         "Speech recognition is not supported in this browser"
                         "NotSupportedError"
                         (Some {| browserName := bc_browserName browserCheck;
                                  reason :=
                                    "Web Speech API constructor not found" |})))
                (set_initialized false prev)) w)
    | Some Constructs =>
        (Some (configured (optionsRef w)),
         with_state (set_initialized true) (count_constructed w))
    | Some (ConstructorThrows e) =>
        (None,
         with_state
           (fun prev =>
              set_error
                (Some (mkError "INITIALIZATION_ERROR"
                         (thrownMessage e
                            "Failed to initialize speech recognition")
                         "InitializationError" None))
                (set_initialized false prev)) w)
    end.

(* ================================================================== *)
(** ** Capability event handlers *)

(** [recognition.onstart] *)
Definition onstart (now : Date) (w : Hook) : Hook :=
  let w1 := with_lastSpeechTimeRef (Some now) w in
  let w2 :=
    with_state (fun prev => set_error None (set_isListening true prev)) w1 in
  resetSilenceTimeout w2.

(** The three locals of [recognition.onresult]. *)
Record Batch := {
  b_interim : string;
  b_final : string;
  b_results : list SpeechToTextResult
}.

(** The body of the [for] loop of [recognition.onresult], on
    [result = event.results[i]]. *)
Definition onresult_body (now : Date) (result : SpeechRecognitionResult)
  (b : Batch) : Batch :=
  let transcript := alt_transcript (item0 result) in
  let confidence := alt_confidence (item0 result) in
  let pushed :=
    b_results b ++
    [{| res_transcript := transcript; res_confidence := confidence;
        res_isFinal := isFinal result; res_timestamp := now |}] in
  if isFinal result
  then {| b_interim := b_interim b; b_final := b_final b ++ transcript;
          b_results := pushed |}
  else {| b_interim := b_interim b ++ transcript; b_final := b_final b;
          b_results := pushed |}.

(** [for (let i = ...; i < event.results.length; i++)], with [n] the
    number of indices left below [event.results.length]. *)
Fixpoint onresult_loop (now : Date) (rs : list SpeechRecognitionResult)
  (n i : nat) (b : Batch) : Batch :=
  match n with
  | O => b
  | S n' =>
      match nth_error rs i with
      | Some result => onresult_loop now rs n' (S i) (onresult_body now result b)
      | None => b
      end
  end.

Definition onresult_batch (now : Date) (event : SpeechRecognitionEvent)
  : Batch :=
  onresult_loop now (ev_results event)
    (List.length (ev_results event) - resultIndex event) (resultIndex event)
    {| b_interim := ""; b_final := ""; b_results := [] |}.

(** [recognition.onresult].  The updater it queues does two things when
    React runs it: it writes [transcriptRef], and it returns the next
    state.  The state is computed here, from the state the updaters
    queued before lead to, which is the [prev] the updater will get; the
    write of the ref is queued, see [runUpdaters]. *)
Definition onresult (event : SpeechRecognitionEvent) (now : Date) (w : Hook)
  : Hook :=
  let w1 := resetSilenceTimeout w in
  let b := onresult_batch now event in
  let interimTranscript := b_interim b in
  let finalTranscript' := b_final b in
  let prev := state w1 in
  let w2 :=
    with_queuedRefWrite
      (Some {| ref_final := finalTranscript prev ++ finalTranscript';
               ref_interim := interimTranscript |}) w1 in
  with_state
    (set_transcripts
       (finalTranscript' ++ interimTranscript)
       interimTranscript
       (finalTranscript prev ++ finalTranscript')
       (results prev ++ b_results b)) w2.

(** The [switch] of [recognition.onerror]. *)
Definition errorMessage (raw : string) : string :=
  if raw =? "no-speech" then "No speech was detected"
  else if raw =? "audio-capture" then "Audio capture failed"
  else if raw =? "not-allowed" then "Permission to use microphone was denied"
  else if raw =? "network" then "Network error occurred"
  else if raw =? "service-not-allowed"
       then "Speech recognition service is not allowed"
  else if raw =? "bad-grammar" then "Grammar compilation failed"
  else if raw =? "language-not-supported" then "Language is not supported"
  else if raw =? "aborted" then "Speech recognition was aborted"
  else "An unknown error occurred during speech recognition".

(** [event.error.toUpperCase().replace("-", "_")] *)
Definition errorCode (raw : string) : string :=
  JS.replace "-" "_" (toUpperCase raw).

(** [recognition.onerror], on [event.error = raw] *)
Definition onerror (raw : string) (w : Hook) : Hook :=
  with_state
    (fun prev =>
       set_error
         (Some (mkError (errorCode raw) (errorMessage raw)
                  "SpeechRecognitionError" None))
         (set_isListening false prev)) w.

(** [recognition.onend] *)
Definition onend (w : Hook) : Hook :=
  with_state (set_isListening false) (clearSilenceTimeout w).

(* ================================================================== *)
(** ** Public operations *)

(** [startListening(options)].  [rendered] is the [state] of the closure:
    the state of the render that created the callback (the dependencies
    of its [useCallback] are [state.isSupported] and [state.isListening]).
    [options = None] is the call without an argument; [outcome] is what
    [recognition.start()] does if it gets called. *)
Definition startListening (rendered : SpeechToTextState)
  (options : option SpeechToTextOptions)
  (outcome : StartOutcome) (w : Hook) : Hook :=
  if negb (isSupported rendered) then
    let browserCheck := checkBrowserCompatibility (host w) in
    with_state
      (set_error
         (Some (mkError "NOT_SUPPORTED" "Speech recognition is not supported"
                  "NotSupportedError"
                  (Some {| browserName := bc_browserName browserCheck;
                           reason := bc_reason browserCheck |})))) w
  else if isListening rendered then w
  else
    let w1 :=
      match options with
      | Some o => with_optionsRef (mergeOptions (optionsRef w) o) w
      | None => w
      end in
    let w2 :=
      match recognitionRef w1 with
      | Some _ => w1
      | None =>
          let (r, w') := initializeSpeechRecognition w1 in
          with_recognitionRef r w'
      end in
    match recognitionRef w2 with
    | None => w2
    | Some _ =>
        let w3 :=
          with_recognitionRef (Some (configured (optionsRef w2))) w2 in
        let w4 := send CmdStart w3 in
        match outcome with
        | Started => w4
        | StartThrows e =>
            with_state
              (set_error
                 (Some (mkError "START_ERROR"
                          (thrownMessage e
                             "Failed to start speech recognition")
                          "StartError" None))) w4
        end
    end.

(** [stopListening]; [rendered] is the state of the render that created
    the callback (the dependency of its [useCallback] is
    [state.isListening]). *)
Definition stopListening (rendered : SpeechToTextState) (w : Hook) : Hook :=
  match recognitionRef w with
  | Some _ =>
      if isListening rendered
      then send CmdStop (clearSilenceTimeout w)
      else w
  | None => w
  end.

(** [abortListening] *)
Definition abortListening (w : Hook) : Hook :=
  match recognitionRef w with
  | Some _ => send CmdAbort (clearSilenceTimeout w)
  | None => w
  end.

(** [resetTranscript] *)
Definition resetTranscript (w : Hook) : Hook :=
  with_state (set_transcripts "" "" "" [])
    (with_transcriptRef {| ref_final := ""; ref_interim := "" |} w).

(** [clearError] *)
Definition clearError (w : Hook) : Hook :=
  with_state (set_error None) w.

(** React runs the queued updaters: the updater of the last result event
    still queued writes [transcriptRef].  (An earlier one queued with it
    writes first and is overwritten; the states they return are in
    [state] already.) *)
Definition runUpdaters (w : Hook) : Hook :=
  match queuedRefWrite w with
  | Some r => with_queuedRefWrite None (with_transcriptRef r w)
  | None => w
  end.

(* ================================================================== *)
(** ** The hook's life cycle *)

(** The first render of [useSpeechToText(initialOptions)] in [h], before
    any effect has run. *)
Definition useSpeechToText (h : Host)
  (initialOptions : option SpeechToTextOptions) : Hook :=
  {| host := h;
     state :=
       {| isListening := false; isSupported := false; transcript := "";
          interimTranscript := ""; finalTranscript := ""; results := [];
          error := None; isInitializing := true |};
     recognitionRef := None;
     lastSpeechTimeRef := None;
     silenceTimeoutRef := None;
     transcriptRef := {| ref_final := ""; ref_interim := "" |};
     queuedRefWrite := None;
     optionsRef :=
       match initialOptions with
       | Some o => mergeOptions DEFAULT_OPTIONS o
       | None => DEFAULT_OPTIONS
       end;
     timers := []; nextTimerId := 1;
     commands := []; autoStopCalls := [];
     constructed := 0 |}.

(** The body of the "initialize on mount" effect. *)
Definition mountEffect (w : Hook) : Hook :=
  let (r, w') := initializeSpeechRecognition w in
  with_recognitionRef r w'.

(** The cleanup of the "initialize on mount" effect. *)
Definition cleanupInitialize (w : Hook) : Hook :=
  let w1 :=
    match recognitionRef w with
    | Some _ => with_recognitionRef None (send CmdAbort w)
    | None => w
    end in
  clearSilenceTimeout w1.

(** The cleanup of the "cleanup on unmount" effect. *)
Definition cleanupUnmount (w : Hook) : Hook :=
  let w1 :=
    match recognitionRef w with
    | Some _ => send CmdAbort w
    | None => w
    end in
  clearSilenceTimeout w1.

(** Teardown: React runs the cleanups in the order of their effects.
    Handlers of an instance that was live can still be called afterwards;
    the embedding keeps following their code, updaters included. *)
Definition unmount (w : Hook) : Hook :=
  cleanupUnmount (cleanupInitialize w).

(** React's strict mode replays the effects once after the first mount:
    every cleanup runs, then the mount effect runs again. *)
Definition remount (w : Hook) : Hook :=
  mountEffect (unmount w).

(** The hook after mounting. *)
Definition mounted (h : Host) (initialOptions : option SpeechToTextOptions)
  : Hook :=
  mountEffect (useSpeechToText h initialOptions).

(* ================================================================== *)
(** ** Everything that can happen to a mounted hook *)

(** Which [startListening] or [stopListening] the caller calls: the one
    of the render that shows the current state, or one that an earlier
    render created and the caller kept (or calls before React has
    rendered again), with the state that render captured.  Which renders
    took place is not recorded: any captured state is admitted, and a
    property that needs a particular one says so. *)
Inductive Callback :=
| CurrentRender
| EarlierRender (rendered : SpeechToTextState).

Definition captured (cb : Callback) (w : Hook) : SpeechToTextState :=
  match cb with
  | CurrentRender => state w
  | EarlierRender rendered => rendered
  end.

Inductive Event :=
| StartListening (cb : Callback) (options : option SpeechToTextOptions)
    (outcome : StartOutcome)
| StopListening (cb : Callback)
| AbortListening
| ResetTranscript
| ClearError
| OnStart (now : Date)
| OnResult (event : SpeechRecognitionEvent) (now : Date)
| OnError (raw : string)
| OnEnd
| WatchdogFires (id : nat)
| Unmount
| Remount
| RunUpdaters.

Definition step (e : Event) (w : Hook) : Hook :=
  match e with
  | StartListening cb options outcome =>
      startListening (captured cb w) options outcome w
  | StopListening cb => stopListening (captured cb w) w
  | AbortListening => abortListening w
  | ResetTranscript => resetTranscript w
  | ClearError => clearError w
  | OnStart now => onstart now w
  | OnResult event now => onresult event now w
  | OnError raw => onerror raw w
  | OnEnd => onend w
  | WatchdogFires id => fireTimeout id w
  | Unmount => unmount w
  | Remount => remount w
  | RunUpdaters => runUpdaters w
  end.

(** An event of the capability reaches a handler only if an instance was
    constructed (the handlers are installed on instances); a timeout fires
    only while it is pending.  Calls of the public operations are always
    possible. *)
Definition possible (e : Event) (w : Hook) : bool :=
  match e with
  | OnStart _ | OnResult _ _ | OnError _ | OnEnd => (0 <? constructed w)%nat
  | WatchdogFires id => pending id w
  | _ => true
  end.

(** Run a list of events, oldest first. *)
Definition run (es : list Event) (w : Hook) : Hook :=
  fold_left (fun w e => step e w) es w.

(** The worlds a hook mounted in [h] with [o] can be in. *)
Inductive reachable (h : Host) (o : option SpeechToTextOptions)
  : Hook -> Prop :=
| reach_mounted : reachable h o (mounted h o)
| reach_step (w : Hook) (e : Event) :
    reachable h o w -> possible e w = true -> reachable h o (step e w).

(** All events of a list are possible when their turn comes. *)
Fixpoint feasible (es : list Event) (w : Hook) : bool :=
  match es with
  | [] => true
  | e :: es' => possible e w && feasible es' (step e w)
  end.

(* ================================================================== *)
(** ** What the specification says, in its own words *)

(** §3: the combined transcript is the final one followed by the interim
    one. *)
Definition spec_combined (s : SpeechToTextState) : string :=
  finalTranscript s ++ interimTranscript s.

(** §4.2: the code form is upper case with hyphens turned into
    underscores. *)
Definition spec_normalizedCode (raw : string) : string :=
  map_string (fun c => if (c =? "-")%char then "_"%char else c)
    (toUpperCase raw).

(** §4.3: only the entries from the start index onward are processed. *)
Definition processed (event : SpeechRecognitionEvent)
  : list SpeechRecognitionResult :=
  skipn (resultIndex event) (ev_results event).

(** The text of an entry, and the texts of a list of entries in order. *)
Definition text (r : SpeechRecognitionResult) : string :=
  alt_transcript (item0 r).

Fixpoint texts (rs : list SpeechRecognitionResult) : string :=
  match rs with
  | [] => ""
  | r :: rs' => text r ++ texts rs'
  end.

Definition notFinal (r : SpeechRecognitionResult) : bool :=
  negb (isFinal r).

(** §4.3: every entry is materialized as a RecognitionResult. *)
Definition materialize (now : Date) (r : SpeechRecognitionResult)
  : SpeechToTextResult :=
  {| res_transcript := text r;
     res_confidence := alt_confidence (item0 r);
     res_isFinal := isFinal r;
     res_timestamp := now |}.

(** The number of hyphens of a raw code. *)
Fixpoint hyphens (s : string) : nat :=
  match s with
  | EmptyString => 0
  | String c s' => (if (c =? "-")%char then 1 else 0) + hyphens s'
  end.

(* ================================================================== *)
(** ** Invariants of the reachable worlds *)

(** Every pending timeout is the one [silenceTimeoutRef] holds, and
    identifiers are never 0. *)
Definition timers_owned (w : Hook) : Prop :=
  (forall t, In t (timers w) -> silenceTimeoutRef w = Some (fst t)) /\
  silenceTimeoutRef w <> Some 0 /\
  nextTimerId w <> 0.

(** Initialization succeeds in [h]. *)
Definition usable (h : Host) : Prop :=
  bc_isSupported (checkBrowserCompatibility h) = true /\
  getBrowserSpeechRecognition h = Some Constructs.

(** A hook can listen only after an instance was constructed, and then its
    host is usable and it knows it. *)
Definition listening_supported (h : Host) (w : Hook) : Prop :=
  host w = h /\
  (isListening (state w) = true -> 0 < constructed w) /\
  (0 < constructed w -> isSupported (state w) = true /\ usable h).

(** The watchdog as the browser and the hook see it. *)
Definition watchdog (w : Hook) : list (nat * optional Z) * option nat * nat :=
  (timers w, silenceTimeoutRef w, nextTimerId w).

(** The events that put the watchdog in step with the listening flag,
    whatever happened before: the capability's start and end events, and
    a result event that arrives while the hook is listening. *)
Definition settling (e : Event) (w : Hook) : bool :=
  match e with
  | OnStart _ | OnEnd => true
  | OnResult _ _ => isListening (state w)
  | _ => false
  end.

(** The events that keep it in step.  The settling ones,
    [resetTranscript], [clearError] and React running the updaters
    always do.  The error event, [stopListening], [abortListening], the
    firing watchdog and teardown look after the listening flag or the
    timer but not both, and keep it in step only while the hook is not
    listening.  [startListening] keeps it in step unless it is called
    while the hook is listening through a callback whose render was not
    listening: it then merges overrides, which may switch the auto-stop
    on or off. *)
Definition calm (e : Event) (w : Hook) : bool :=
  match e with
  | OnStart _ | OnEnd | ResetTranscript | ClearError | RunUpdaters => true
  | OnResult _ _ => isListening (state w)
  | StartListening cb _ _ =>
      negb (isListening (state w)) || isListening (captured cb w)
  | StopListening _ | AbortListening | OnError _ | WatchdogFires _
  | Unmount | Remount =>
      negb (isListening (state w))
  end.

(** The worlds in which the watchdog is in step: the mounted hook, any
    reachable world after a settling event, and from there on as long as
    the events are calm. *)
Inductive steady (h : Host) (o : option SpeechToTextOptions)
  : Hook -> Prop :=
| steady_mounted : steady h o (mounted h o)
| steady_settled (w : Hook) (e : Event) :
    reachable h o w -> possible e w = true -> settling e w = true ->
    steady h o (step e w)
| steady_step (w : Hook) (e : Event) :
    steady h o w -> possible e w = true -> calm e w = true ->
    steady h o (step e w).

(** All events of a list are possible and calm when their turn comes. *)
Fixpoint all_calm (es : list Event) (w : Hook) : bool :=
  match es with
  | [] => true
  | e :: es' => possible e w && calm e w && all_calm es' (step e w)
  end.


(** Everything of the world but the watchdog. *)
Definition beyond_watchdog (w : Hook) :=
  (host w, state w, recognitionRef w, lastSpeechTimeRef w, transcriptRef w,
   optionsRef w, commands w, autoStopCalls w, constructed w,
   queuedRefWrite w).

(* ================================================================== *)
(** ** Concrete hosts, options and events used in the examples *)

Definition chrome : Host :=
  Some {| navigator :=
            {| userAgent :=
                 "Mozilla/5.0 (X11; Linux x86_64) AppleWebKit/537.36 (KHTML, like Gecko) Chrome/120.0.0.0 Safari/537.36";
               brave := Absent |};
          win_SpeechRecognition := None;
          win_webkitSpeechRecognition := Some Constructs;
          win_mozSpeechRecognition := None;
          win_msSpeechRecognition := None |}.

Definition firefox : Host :=
  Some {| navigator :=
            {| userAgent :=
                 "Mozilla/5.0 (X11; Linux x86_64; rv:120.0) Gecko/20100101 Firefox/120.0";
               brave := Absent |};
          win_SpeechRecognition := None;
          win_webkitSpeechRecognition := None;
          win_mozSpeechRecognition := None;
          win_msSpeechRecognition := None |}.

(** Brave: a Chromium user agent, and [navigator.brave] is there. *)
Definition brave_browser : Host :=
  Some {| navigator :=
            {| userAgent :=
                 "Mozilla/5.0 (X11; Linux x86_64) AppleWebKit/537.36 (KHTML, like Gecko) Chrome/120.0.0.0 Safari/537.36";
               brave := Val tt |};
          win_SpeechRecognition := None;
          win_webkitSpeechRecognition := Some Constructs;
          win_mozSpeechRecognition := None;
          win_msSpeechRecognition := None |}.

(** Safari on iOS 14.4 *)
Definition old_iphone : Host :=
  Some {| navigator :=
            {| userAgent :=
                 "Mozilla/5.0 (iPhone; CPU iPhone OS 14_4 like Mac OS X) AppleWebKit/605.1.15 (KHTML, like Gecko) Version/14.0 Mobile/15E148 Safari/604.1";
               brave := Absent |};
          win_SpeechRecognition := None;
          win_webkitSpeechRecognition := Some Constructs;
          win_mozSpeechRecognition := None;
          win_msSpeechRecognition := None |}.

(** [{ autoStopOnSilence: { enabled: true, silenceDuration: 2000 } }] *)
Definition autoStop2s : SpeechToTextOptions :=
  {| continuous := Absent; interimResults := Absent;
     maxAlternatives := Absent; language := Absent;
     autoStopOnSilence :=
       Val {| enabled := true; silenceDuration := Val 2000%Z;
              onAutoStop := Absent |} |}.

(** [{ language: "fr-FR" }] *)
Definition french : SpeechToTextOptions :=
  {| continuous := Absent; interimResults := Absent;
     maxAlternatives := Absent; language := Val "fr-FR";
     autoStopOnSilence := Absent |}.

Definition entry (s : string) (final : bool) : SpeechRecognitionResult :=
  {| item0 := {| alt_transcript := s; alt_confidence := 0.5%float |};
     items := []; isFinal := final |}.

(** A session in which "hello " was finalized and then a second event
    reports the new final entry "world" at index 1. *)
Definition two_finals : list Event :=
  [ StartListening CurrentRender None Started;
    OnStart 0%Z;
    OnResult {| resultIndex := 0; ev_results := [entry "hello " true] |} 1%Z;
    OnResult {| resultIndex := 1;
                ev_results := [entry "hello " true; entry "world" true] |}
      2%Z ].

(** A session with the watchdog on that ends with a capability error. *)
Definition error_while_armed : list Event :=
  [ StartListening CurrentRender None Started;
    OnStart 0%Z;
    OnError "no-speech" ].

(** A session with the watchdog on in which speech is being reported. *)
Definition listening_session : list Event :=
  [ StartListening CurrentRender None Started;
    OnStart 0%Z;
    OnResult {| resultIndex := 0; ev_results := [entry "hel" false] |} 1%Z ].

(** A session that finalizes "hello ", and how it goes on: "world" is
    finalized, then the capability reports an error and ends. *)
Definition one_final : list Event :=
  [ StartListening CurrentRender None Started;
    OnStart 0%Z;
    OnResult {| resultIndex := 0; ev_results := [entry "hello " true] |} 1%Z ].

Definition second_final_and_end : list Event :=
  [ OnResult {| resultIndex := 1;
                ev_results := [entry "hello " true; entry "world" true] |}
      2%Z;
    OnError "no-speech";
    OnEnd ].

(** A hook torn down while a start was under way: the capability's start
    event still reaches the handler of the instance. *)
Definition start_after_unmount : list Event :=
  [ StartListening CurrentRender None Started; Unmount; OnStart 0%Z ].

(** The worlds these sessions lead to. *)
Definition after_two_finals : Hook :=
  run two_finals (mounted chrome None).

Definition after_error : Hook :=
  run error_while_armed (mounted chrome (Some autoStop2s)).

Definition after_late_start : Hook :=
  run start_after_unmount (mounted chrome (Some autoStop2s)).

Definition while_listening : Hook :=
  run listening_session (mounted chrome (Some autoStop2s)).

Definition while_listening_default : Hook :=
  run listening_session (mounted chrome None).




(** The state that the render after initialization shows in Chrome:
    supported and not listening.  A [startListening] or [stopListening]
    that a caller kept from that render tests this state. *)
Definition idle_render : SpeechToTextState :=
  state (mounted chrome None).

(** The hook is listening and the caller calls the [startListening] kept
    from the idle render, with a language override; the capability,
    started already, throws. *)
Definition after_stale_start : Hook :=
  step (StartListening (EarlierRender idle_render) (Some french)
          (StartThrows (ThrownError "already started")))
    while_listening_default.

(** The same call with an override that enables the auto-stop. *)
Definition after_stale_autoStop : Hook :=
  step (StartListening (EarlierRender idle_render) (Some autoStop2s)
          (StartThrows (ThrownError "already started")))
    while_listening_default.

(** A result event that arrives after the session has ended. *)
Definition late_result : list Event :=
  [ StartListening CurrentRender None Started;
    OnStart 0%Z;
    OnEnd;
    OnResult {| resultIndex := 0; ev_results := [entry "hel" false] |} 1%Z ].

Definition after_late_result : Hook :=
  run late_result (mounted chrome (Some autoStop2s)).

Definition after_one_final : Hook :=
  run one_final (mounted chrome None).

(* ================================================================== *)
(** ** Further definitions: stages of [startListening], invariants *)

(** The stages of [startListening] once both guards are passed: merge the
    overrides, make sure an instance is there, configure it and start. *)
Definition withOverrides (options : option SpeechToTextOptions) (w : Hook)
  : Hook :=
  match options with
  | Some o => with_optionsRef (mergeOptions (optionsRef w) o) w
  | None => w
  end.

Definition ensureInstance (w : Hook) : Hook :=
  match recognitionRef w with
  | Some _ => w
  | None => mountEffect w
  end.

Definition configureAndStart (outcome : StartOutcome) (w : Hook) : Hook :=
  let w4 :=
    send CmdStart
      (with_recognitionRef (Some (configured (optionsRef w))) w) in
  match outcome with
  | Started => w4
  | StartThrows e =>
      with_state
        (set_error
           (Some (mkError "START_ERROR"
                    (thrownMessage e "Failed to start speech recognition")
                    "StartError" None))) w4
  end.

(** The probe's answer [c] explains itself, given the constructor found:
    it has a reason exactly when it says unsupported, and it says
    supported only if a constructor was found. *)
Definition explained (ctor : option Constructor) (c : BrowserCheck) : Prop :=
  (bc_isSupported c = true <-> bc_reason c = "")
  /\ (bc_isSupported c = true -> exists k, ctor = Some k).

(** What [transcriptRef] holds once React has run the queued updaters. *)
Definition settledRef (w : Hook) : TranscriptRef :=
  match queuedRefWrite w with
  | Some r => r
  | None => transcriptRef w
  end.

(** Once React has run the queued updaters, [transcriptRef] holds the
    final and interim transcripts of the state. *)
Definition mirrors (w : Hook) : Prop :=
  settledRef w =
  {| ref_final := finalTranscript (state w);
     ref_interim := interimTranscript (state w) |}.

(** [resetTranscript] is not called while the updater of a result event
    is still queued. *)
Definition unbatched (e : Event) (w : Hook) : bool :=
  match e with
  | ResetTranscript =>
      match queuedRefWrite w with
      | Some _ => false
      | None => true
      end
  | _ => true
  end.

(** The worlds reached with every [resetTranscript] unbatched. *)
Inductive orderly (h : Host) (o : option SpeechToTextOptions)
  : Hook -> Prop :=
| orderly_mounted : orderly h o (mounted h o)
| orderly_step (w : Hook) (e : Event) :
    orderly h o w -> possible e w = true -> unbatched e w = true ->
    orderly h o (step e w).

Fixpoint all_unbatched (es : list Event) (w : Hook) : bool :=
  match es with
  | [] => true
  | e :: es' => possible e w && unbatched e w && all_unbatched es' (step e w)
  end.

(** A live instance carries the configuration of the working options. *)
Definition instance_configured (w : Hook) : Prop :=
  forall r, recognitionRef w = Some r -> r = configured (optionsRef w).

(** Initialization is over, and the hook says supported exactly in a
    usable host. *)
Definition settled (h : Host) (w : Hook) : Prop :=
  host w = h
  /\ isInitializing (state w) = false
  /\ (isSupported (state w) = true <-> usable h).

(** Nothing was ever sent, constructed, armed or called. *)
Definition dormant (w : Hook) : Prop :=
  commands w = [] /\ autoStopCalls w = [] /\ recognitionRef w = None
  /\ constructed w = 0 /\ isListening (state w) = false /\ timers w = [].

(** The auto-stop is off, nothing is pending and the callback was never
    called. *)
Definition watchdog_off (w : Hook) : Prop :=
  autoStopEnabled (optionsRef w) = false
  /\ timers w = [] /\ autoStopCalls w = [].

(** No override of a call of [startListening] in [es] enables the
    auto-stop. *)
Definition leaves_autoStop_off (e : Event) : bool :=
  match e with
  | StartListening _ (Some o) _ => negb (autoStopEnabled o)
  | _ => true
  end.

(** The options a hook starts with. *)
Definition initialOptionsRef (o : option SpeechToTextOptions)
  : SpeechToTextOptions :=
  match o with
  | Some o' => mergeOptions DEFAULT_OPTIONS o'
  | None => DEFAULT_OPTIONS
  end.

(** An object literal without keys. *)
Definition noOptions : SpeechToTextOptions :=
  {| continuous := Absent; interimResults := Absent;
     maxAlternatives := Absent; language := Absent;
     autoStopOnSilence := Absent |}.

(** What a fired watchdog passes to the user's callback, if anything. *)
Definition autoStopCall (w : Hook) : list (nat * string) :=
  match autoStopOnSilence (optionsRef w) with
  | Val a =>
      match onAutoStop a with
      | Val cb =>
          if truthy_string (ref_final (transcriptRef w))
          then [(cb, ref_final (transcriptRef w))]
          else []
      | _ => []
      end
  | _ => []
  end.

(** [true] when a capability instance is live. *)
Definition live (w : Hook) : bool :=
  match recognitionRef w with
  | Some _ => true
  | None => false
  end.

(** Firefox with a recognition constructor on [window]. *)
Definition firefox_with_constructor : Host :=
  Some {| navigator :=
            {| userAgent :=
                 "Mozilla/5.0 (X11; Linux x86_64; rv:120.0) Gecko/20100101 Firefox/120.0";
               brave := Absent |};
          win_SpeechRecognition := Some Constructs;
          win_webkitSpeechRecognition := None;
          win_mozSpeechRecognition := None;
          win_msSpeechRecognition := None |}.

(** [{ autoStopOnSilence: { enabled: true, onAutoStop: cb7 } }], without a
    duration. *)
Definition autoStopNoDuration : SpeechToTextOptions :=
  {| continuous := Absent; interimResults := Absent;
     maxAlternatives := Absent; language := Absent;
     autoStopOnSilence :=
       Val {| enabled := true; silenceDuration := Absent;
              onAutoStop := Val 7 |} |}.

(** A result event whose result index is past the end of its list. *)
Definition stale_event : SpeechRecognitionEvent :=
  {| resultIndex := 2; ev_results := [entry "hello " true] |}.

(** A session with a callback in which "hello " was finalized, and React
    has run the updater of the result event. *)
Definition after_one_final_with_callback : Hook :=
  run (one_final ++ [RunUpdaters]) (mounted chrome (Some autoStopNoDuration)).

(** The same session, but [resetTranscript] is called before React has
    run the updater of the result event. *)
Definition reset_in_batch : list Event :=
  one_final ++ [ResetTranscript; RunUpdaters].

Definition after_reset_in_batch : Hook :=
  run reset_in_batch (mounted chrome (Some autoStopNoDuration)).

(** A tour through every kind of event but the firing watchdog. *)
Definition tour : list Event :=
  [ StartListening CurrentRender (Some french) Started;
    OnStart 0%Z;
    OnResult {| resultIndex := 0; ev_results := [entry "bon" false] |} 1%Z;
    OnResult {| resultIndex := 0; ev_results := [entry "bonjour " true] |} 2%Z;
    StopListening CurrentRender;
    OnEnd;
    StartListening CurrentRender None (StartThrows (ThrownError "busy"));
    OnError "not-allowed";
    ClearError;
    AbortListening;
    Remount;
    Unmount;
    StartListening CurrentRender None Started;
    OnStart 3%Z ].

Definition after_tour : Hook :=
  run tour (mounted chrome (Some autoStop2s)).

(** What a user may try in a host without recognition. *)
Definition attempts : list Event :=
  [ StartListening CurrentRender (Some french) Started;
    StopListening CurrentRender; AbortListening;
    ResetTranscript; Remount;
    StartListening CurrentRender None Started; Unmount ].

Definition after_attempts : Hook :=
  run attempts (mounted firefox (Some autoStop2s)).

(** The final teardown of the hook. *)
Definition teardown (e : Event) : bool :=
  match e with
  | Unmount => true
  | _ => false
  end.

(** The worlds of a hook that was not torn down: those reached without
    [Unmount].  ([Remount] tears down and initializes again.) *)
Inductive attached (h : Host) (o : option SpeechToTextOptions)
  : Hook -> Prop :=
| attached_mounted : attached h o (mounted h o)
| attached_step (w : Hook) (e : Event) :
    attached h o w -> possible e w = true -> teardown e = false ->
    attached h o (step e w).

Fixpoint stays_attached (es : list Event) (w : Hook) : bool :=
  match es with
  | [] => true
  | e :: es' =>
      possible e w && negb (teardown e) && stays_attached es' (step e w)
  end.

(** Without an instance, none was ever constructed and nothing is
    pending. *)
Definition held (w : Hook) : Prop :=
  recognitionRef w = None -> constructed w = 0 /\ timers w = [].

(** Every pending timeout was handed out before the next identifier. *)
Definition fresh_ids (w : Hook) : Prop :=
  forall t, In t (timers w) -> fst t < nextTimerId w.

(** The pending timeouts after [resetSilenceTimeout] in [w]. *)
Definition rearmed (w : Hook) : list (nat * optional Z) :=
  if autoStopEnabled (optionsRef w)
  then [(nextTimerId w, silenceDelay (optionsRef w))]
  else [].



(* ================================================================== *)
(** * Properties *)

(** ** Strings *)

Lemma append_assoc (a b c : string) : ((a ++ b) ++ c = a ++ (b ++ c))%string.
Proof.
  induction a as [|x a IH]; simpl; [reflexivity|].
  now rewrite IH.
Qed.

Lemma append_empty_r (a : string) : (a ++ "")%string = a.
Proof.
  induction a as [|x a IH]; simpl; [reflexivity|].
  now rewrite IH.
Qed.

Lemma prefix_refl (a : string) : String.prefix a a = true.
Proof.
  induction a as [|x a IH]; simpl; [reflexivity|].
  destruct (ascii_dec x x) as [_|ne]; [exact IH | now elim ne].
Qed.

Lemma prefix_append (a b : string) : String.prefix a (a ++ b) = true.
Proof.
  induction a as [|x a IH]; simpl.
  - now destruct b.
  - destruct (ascii_dec x x) as [_|ne]; [exact IH | now elim ne].
Qed.

Lemma prefix_trans (a b c : string) :
  String.prefix a b = true -> String.prefix b c = true ->
  String.prefix a c = true.
Proof.
  revert a b.
  induction c as [|z c IH]; intros a b Hab Hbc.
  - destruct b; [|discriminate]. destruct a; [reflexivity|discriminate].
  - destruct a as [|x a]; [reflexivity|].
    destruct b as [|y b]; [discriminate|].
    simpl in *.
    destruct (ascii_dec x y) as [->|]; [|discriminate].
    destruct (ascii_dec y z) as [->|]; [|discriminate].
    now apply (IH a b).
Qed.

(** ** The accumulator loop *)

Lemma skipn_nth_error {A} (l : list A) (i : nat) (x : A) :
  nth_error l i = Some x -> skipn i l = x :: skipn (S i) l.
Proof.
  revert i.
  induction l as [|y l IH]; intros [|i] H; simpl in *; try discriminate.
  - now injection H as ->.
  - now apply IH.
Qed.

(** The indexed loop visits exactly the entries from its index onward. *)
Lemma onresult_loop_skipn now rs :
  forall n i b,
    n = List.length rs - i ->
    onresult_loop now rs n i b =
    fold_left (fun b r => onresult_body now r b) (skipn i rs) b.
Proof.
  induction n as [|n IH]; intros i b Hn; simpl.
  - rewrite skipn_all2 by lia. reflexivity.
  - destruct (nth_error rs i) as [r|] eqn:Hr.
    + rewrite (skipn_nth_error _ _ _ Hr). simpl.
      apply IH. lia.
    + apply nth_error_None in Hr. lia.
Qed.

Lemma fold_body_final now rs :
  forall b,
    b_final (fold_left (fun b r => onresult_body now r b) rs b) =
    (b_final b ++ texts (filter isFinal rs))%string.
Proof.
  induction rs as [|r rs IH]; intros b; simpl.
  - now rewrite append_empty_r.
  - rewrite IH. unfold onresult_body.
    destruct (isFinal r); simpl; [|reflexivity].
    now rewrite append_assoc.
Qed.

Lemma fold_body_interim now rs :
  forall b,
    b_interim (fold_left (fun b r => onresult_body now r b) rs b) =
    (b_interim b ++ texts (filter notFinal rs))%string.
Proof.
  induction rs as [|r rs IH]; intros b; simpl.
  - now rewrite append_empty_r.
  - rewrite IH. unfold onresult_body, notFinal.
    destruct (isFinal r); simpl; [reflexivity|].
    now rewrite append_assoc.
Qed.

Lemma fold_body_results now rs :
  forall b,
    b_results (fold_left (fun b r => onresult_body now r b) rs b) =
    b_results b ++ map (materialize now) rs.
Proof.
  induction rs as [|r rs IH]; intros b; simpl.
  - now rewrite app_nil_r.
  - rewrite IH. unfold onresult_body.
    destruct (isFinal r) eqn:E; simpl; rewrite <- app_assoc;
      unfold materialize, text; rewrite E; reflexivity.
Qed.

(** The three locals of the handler after the loop. *)
Lemma onresult_batch_spec now event :
  b_final (onresult_batch now event) = texts (filter isFinal (processed event))
  /\ b_interim (onresult_batch now event) =
     texts (filter notFinal (processed event))
  /\ b_results (onresult_batch now event) =
     map (materialize now) (processed event).
Proof.
  unfold onresult_batch, processed.
  rewrite onresult_loop_skipn by reflexivity.
  rewrite fold_body_final, fold_body_interim, fold_body_results.
  repeat split.
Qed.

(** ** Frame lemmas for the watchdog primitives *)

Lemma clearSilenceTimeout_state w :
  state (clearSilenceTimeout w) = state w.
Proof. unfold clearSilenceTimeout. now destruct (silenceTimeoutRef w) as [[|n]|]. Qed.

Lemma clearSilenceTimeout_optionsRef w :
  optionsRef (clearSilenceTimeout w) = optionsRef w.
Proof. unfold clearSilenceTimeout. now destruct (silenceTimeoutRef w) as [[|n]|]. Qed.

Lemma resetSilenceTimeout_state w :
  state (resetSilenceTimeout w) = state w.
Proof.
  unfold resetSilenceTimeout.
  destruct (autoStopEnabled _); simpl; apply clearSilenceTimeout_state.
Qed.

Lemma resetSilenceTimeout_optionsRef w :
  optionsRef (resetSilenceTimeout w) = optionsRef w.
Proof.
  unfold resetSilenceTimeout.
  destruct (autoStopEnabled _); simpl; apply clearSilenceTimeout_optionsRef.
Qed.

(** What [onresult] leaves in the state, in terms of the state before. *)
Lemma onresult_state event now w :
  state (onresult event now w) =
  set_transcripts
    (b_final (onresult_batch now event) ++ b_interim (onresult_batch now event))
    (b_interim (onresult_batch now event))
    (finalTranscript (state w) ++ b_final (onresult_batch now event))
    (results (state w) ++ b_results (onresult_batch now event))
    (state w).
Proof.
  unfold onresult. simpl.
  now rewrite resetSilenceTimeout_state.
Qed.

(* ================================================================== *)
(** ** Capability detection on some hosts *)

Example chrome_supported :
  checkBrowserCompatibility chrome = mkCheck true "Chrome" "".
Proof. vm_compute. reflexivity. Qed.

Example firefox_not_supported :
  checkBrowserCompatibility firefox =
    mkCheck false "Firefox" "Firefox does not support Web Speech API"
  /\ isSupported (state (mounted firefox None)) = false
  /\ option_map code (error (state (mounted firefox None))) =
       Some "NOT_SUPPORTED".
Proof. vm_compute. repeat split. Qed.

(** The scenario of the specification: in a privacy-restricted browser the
    probe answers unsupported, and the mounted hook is not supported and
    holds a NOT_SUPPORTED error. *)
Example brave_not_supported :
  bc_isSupported (checkBrowserCompatibility brave_browser) = false
  /\ isSupported (state (mounted brave_browser None)) = false
  /\ option_map code (error (state (mounted brave_browser None))) =
       Some "NOT_SUPPORTED".
Proof. vm_compute. repeat split. Qed.

Example old_iphone_not_supported :
  checkBrowserCompatibility old_iphone =
    mkCheck false "Safari (iOS)" "Web Speech API requires iOS 14.5 or later".
Proof. vm_compute. reflexivity. Qed.

(* ================================================================== *)
(** ** The accumulator ([recognition.onresult]) *)

(** The three accumulated fields after a result event. *)
Lemma onresult_fields (event : SpeechRecognitionEvent) (now : Date) (w : Hook) :
  finalTranscript (state (onresult event now w)) =
    (finalTranscript (state w) ++ texts (filter isFinal (processed event)))%string
  /\ interimTranscript (state (onresult event now w)) =
       texts (filter notFinal (processed event))
  /\ results (state (onresult event now w)) =
       results (state w) ++ map (materialize now) (processed event).
Proof.
  rewrite onresult_state.
  destruct (onresult_batch_spec now event) as (Hf & Hi & Hr).
  simpl. rewrite Hf, Hi, Hr. repeat split.
Qed.

(** C5: a result event processes exactly the entries from its result index
    onward: the texts of the final ones are appended, in order, to the
    prior final transcript; the interim transcript becomes the texts of
    this event's non-final entries and nothing else; and every processed
    entry, final or not, is appended to the results log. *)
Theorem onresult_accumulates
  (event : SpeechRecognitionEvent) (now : Date) (w : Hook) :
  finalTranscript (state (onresult event now w)) =
    (finalTranscript (state w) ++ texts (filter isFinal (processed event)))%string
  /\ interimTranscript (state (onresult event now w)) =
       texts (filter notFinal (processed event))
  /\ results (state (onresult event now w)) =
       results (state w) ++ map (materialize now) (processed event).
Proof.
  rewrite onresult_state.
  unfold onresult_batch, processed.
  rewrite onresult_loop_skipn by reflexivity.
  set (new := skipn (resultIndex event) (ev_results event)).
  simpl.
  rewrite fold_body_final, fold_body_interim, fold_body_results.
  repeat split.
Qed.

(** The scenario of the specification: "hel" interim, then "hello" final,
    both at index 0. *)
Example onresult_hel_hello (w : Hook) :
  finalTranscript (state w) = "" ->
  let w1 :=
    onresult {| resultIndex := 0; ev_results := [entry "hel" false] |} 1%Z
      w in
  let w2 :=
    onresult {| resultIndex := 0; ev_results := [entry "hello" true] |} 2%Z
      w1 in
  interimTranscript (state w1) = "hel"
  /\ finalTranscript (state w2) = "hello"
  /\ interimTranscript (state w2) = "".
Proof.
  intros E w1 w2.
  destruct (onresult_fields
              {| resultIndex := 0; ev_results := [entry "hel" false] |} 1%Z w)
    as (F1 & I1 & _).
  destruct (onresult_fields
              {| resultIndex := 0; ev_results := [entry "hello" true] |} 2%Z
              w1) as (F2 & I2 & _).
  fold w1 in F1, I1. fold w2 in F2, I2.
  rewrite I1, F2, I2, F1, E. repeat split.
Qed.

(** The combined transcript written by the handler is made of this
    event's texts only. *)
Lemma onresult_transcript event now w :
  transcript (state (onresult event now w)) =
  (texts (filter isFinal (processed event))
   ++ texts (filter notFinal (processed event)))%string.
Proof.
  rewrite onresult_state.
  destruct (onresult_batch_spec now event) as (Hf & Hi & _).
  simpl. now rewrite Hf, Hi.
Qed.

Lemma length_append (a b : string) :
  String.length (a ++ b) = String.length a + String.length b.
Proof. induction a as [|x a IH]; simpl; [reflexivity | now rewrite IH]. Qed.

(** It agrees with final + interim exactly when nothing had been finalized
    before the event. *)
Lemma onresult_combined_iff event now w :
  transcript (state (onresult event now w)) =
  spec_combined (state (onresult event now w))
  <-> finalTranscript (state w) = "".
Proof.
  unfold spec_combined.
  rewrite onresult_transcript.
  destruct (onresult_fields event now w) as (-> & -> & _).
  rewrite append_assoc.
  split; intros H.
  - apply (f_equal String.length) in H.
    rewrite (length_append (finalTranscript (state w))) in H.
    destruct (finalTranscript (state w)); [reflexivity | simpl in H; lia].
  - now rewrite H.
Qed.

(** C1: evaluated on a session that finalizes "hello " and then "world":
    after the second result event the final transcript is "hello world",
    the interim one is empty, and the combined transcript is "world", which
    is not final followed by interim. *)
Theorem onresult_transcript_omits_prior_final :
  feasible two_finals (mounted chrome None) = true
  /\ finalTranscript (state after_two_finals) = "hello world"
  /\ interimTranscript (state after_two_finals) = ""
  /\ transcript (state after_two_finals) = "world"
  /\ transcript (state after_two_finals) <>
     spec_combined (state after_two_finals).
Proof.
  vm_compute. repeat split. discriminate.
Qed.

(* ================================================================== *)
(** ** The error classifier ([recognition.onerror]) *)

Lemma upper_char_hyphen (c : ascii) :
  (upper_char c =? "-")%char = (c =? "-")%char.
Proof. destruct c as [[] [] [] [] [] [] [] []]; reflexivity. Qed.

Lemma hyphens_toUpperCase (s : string) :
  hyphens (toUpperCase s) = hyphens s.
Proof.
  unfold toUpperCase.
  induction s as [|c s IH]; simpl; [reflexivity|].
  now rewrite upper_char_hyphen, IH.
Qed.

Lemma no_hyphen_unchanged (s : string) :
  hyphens s = 0 ->
  map_string (fun c => if (c =? "-")%char then "_"%char else c) s = s.
Proof.
  induction s as [|c s IH]; simpl; [reflexivity|].
  destruct (c =? "-")%char; [discriminate|].
  intros H. now rewrite IH.
Qed.

Lemma prefix_char (a c : ascii) (s : string) :
  String.prefix (String a "") (String c s) = (a =? c)%char.
Proof.
  change (String.prefix (String a "") (String c s))
    with (if ascii_dec a c then String.prefix "" s else false).
  destruct (ascii_dec a c) as [->|ne].
  - rewrite Ascii.eqb_refl. now destruct s.
  - symmetry. now apply Ascii.eqb_neq.
Qed.

Lemma replace_cons (pat rep : string) (c : ascii) (s : string) :
  JS.replace pat rep (String c s) =
  if String.prefix pat (String c s)
  then (rep ++ drop (String.length pat) (String c s))%string
  else String c (JS.replace pat rep s).
Proof. reflexivity. Qed.

Lemma replace_one_hyphen (s : string) :
  hyphens s <= 1 ->
  JS.replace "-" "_" s =
  map_string (fun c => if (c =? "-")%char then "_"%char else c) s.
Proof.
  induction s as [|c s IH]; [reflexivity|].
  intros H. rewrite replace_cons, prefix_char, Ascii.eqb_sym.
  cbn [hyphens map_string] in *.
  destruct (c =? "-")%char.
  - rewrite no_hyphen_unchanged by lia. reflexivity.
  - rewrite IH by lia. reflexivity.
Qed.

(** The recorded code is the normalized one for every raw code with at
    most one hyphen, recognized or not. *)
Lemma errorCode_one_hyphen (raw : string) :
  hyphens raw <= 1 -> errorCode raw = spec_normalizedCode raw.
Proof.
  intros H. unfold errorCode, spec_normalizedCode.
  apply replace_one_hyphen. now rewrite hyphens_toUpperCase.
Qed.

(** C2: evaluated on the raw codes with two hyphens: the error event
    records SERVICE_NOT-ALLOWED and LANGUAGE_NOT-SUPPORTED, where upper
    case with every hyphen turned into an underscore is
    SERVICE_NOT_ALLOWED and LANGUAGE_NOT_SUPPORTED; bad-grammar is recorded
    as BAD_GRAMMAR. *)
Theorem onerror_code_first_hyphen_only (w : Hook) :
  option_map code (error (state (onerror "service-not-allowed" w))) =
    Some "SERVICE_NOT-ALLOWED"
  /\ spec_normalizedCode "service-not-allowed" = "SERVICE_NOT_ALLOWED"
  /\ option_map code (error (state (onerror "language-not-supported" w))) =
       Some "LANGUAGE_NOT-SUPPORTED"
  /\ spec_normalizedCode "language-not-supported" = "LANGUAGE_NOT_SUPPORTED"
  /\ option_map code (error (state (onerror "bad-grammar" w))) =
       Some "BAD_GRAMMAR".
Proof. repeat split. Qed.

(** An unrecognized raw code gets the generic message, and its code is
    formed in the same way as for the recognized ones. *)
Example onerror_unknown_code (w : Hook) :
  error (state (onerror "phrases-not-supported" w)) =
  Some (mkError "PHRASES_NOT-SUPPORTED"
          "An unknown error occurred during speech recognition"
          "SpeechRecognitionError" None).
Proof. reflexivity. Qed.

(* ================================================================== *)
(** ** [resetTranscript] *)

(** C8: after [resetTranscript] the final, interim and combined
    transcripts are empty and the results log is empty; the status flags
    and the error are as before; and a second call changes nothing. *)
Theorem resetTranscript_clears (w : Hook) :
  finalTranscript (state (resetTranscript w)) = ""
  /\ interimTranscript (state (resetTranscript w)) = ""
  /\ transcript (state (resetTranscript w)) = ""
  /\ results (state (resetTranscript w)) = []
  /\ isListening (state (resetTranscript w)) = isListening (state w)
  /\ isSupported (state (resetTranscript w)) = isSupported (state w)
  /\ isInitializing (state (resetTranscript w)) = isInitializing (state w)
  /\ error (state (resetTranscript w)) = error (state w)
  /\ resetTranscript (resetTranscript w) = resetTranscript w.
Proof. repeat split. Qed.

(* ================================================================== *)
(** ** Initialization without a [window] *)

(** C9: without a global [window] the probe answers unsupported with the
    reason "Not running in browser environment", which is not empty; the
    hook mounts all the same, and is then not supported, no longer
    initializing, without a capability instance, and holds a NOT_SUPPORTED
    error that carries the probe's reason. *)
Theorem no_window_not_supported (o : option SpeechToTextOptions) :
  checkBrowserCompatibility None =
    mkCheck false "Unknown" "Not running in browser environment"
  /\ bc_reason (checkBrowserCompatibility None) <> ""
  /\ isSupported (state (mounted None o)) = false
  /\ isInitializing (state (mounted None o)) = false
  /\ recognitionRef (mounted None o) = None
  /\ error (state (mounted None o)) =
       Some (mkError "NOT_SUPPORTED" "Not running in browser environment"
               "NotSupportedError"
               (Some {| browserName := "Unknown";
                        reason := "Not running in browser environment" |})).
Proof. repeat split. discriminate. Qed.

(* ================================================================== *)
(** ** Starting a session keeps the transcripts *)

Lemma initializeSpeechRecognition_transcripts w :
  let s' := state (snd (initializeSpeechRecognition w)) in
  finalTranscript s' = finalTranscript (state w)
  /\ interimTranscript s' = interimTranscript (state w)
  /\ transcript s' = transcript (state w)
  /\ results s' = results (state w).
Proof.
  unfold initializeSpeechRecognition.
  destruct (negb _); [repeat split|].
  destruct (getBrowserSpeechRecognition _) as [[|e]|]; repeat split.
Qed.

Lemma startListening_transcripts rendered options outcome w :
  let s' := state (startListening rendered options outcome w) in
  finalTranscript s' = finalTranscript (state w)
  /\ interimTranscript s' = interimTranscript (state w)
  /\ transcript s' = transcript (state w)
  /\ results s' = results (state w).
Proof.
  unfold startListening.
  destruct (negb _); [repeat split|].
  destruct (isListening _); [repeat split|].
  set (w1 := match options with Some _ => _ | None => _ end).
  assert (E1 : state w1 = state w) by (subst w1; now destruct options).
  set (w2 := match recognitionRef w1 with Some _ => _ | None => _ end).
  assert (E2 : let s' := state w2 in
               finalTranscript s' = finalTranscript (state w)
               /\ interimTranscript s' = interimTranscript (state w)
               /\ transcript s' = transcript (state w)
               /\ results s' = results (state w)).
  { subst w2. destruct (recognitionRef w1).
    - rewrite E1. repeat split.
    - pose proof (initializeSpeechRecognition_transcripts w1) as H.
      destruct (initializeSpeechRecognition w1) as [r w']. simpl in *.
      now rewrite E1 in H. }
  destruct (recognitionRef w2); [|exact E2].
  destruct outcome; exact E2.
Qed.

(** C10: neither [startListening] nor the capability's start event that
    follows it touches the final, interim or combined transcript or the
    results log.  Of the state, the start event writes the listening flag
    and the error only; it leaves the transcript ref, the options and the
    capability instance alone and sends no command.  (Apart from the
    watchdog it also stamps the internal last-speech time.)  This holds
    for the [startListening] of every render, whatever state it
    captured. *)
Theorem start_keeps_transcripts
  (rendered : SpeechToTextState)
  (options : option SpeechToTextOptions) (outcome : StartOutcome)
  (now : Date) (w : Hook) :
  let w1 := startListening rendered options outcome w in
  let w2 := onstart now w1 in
  (finalTranscript (state w1) = finalTranscript (state w)
   /\ interimTranscript (state w1) = interimTranscript (state w)
   /\ transcript (state w1) = transcript (state w)
   /\ results (state w1) = results (state w))
  /\ (finalTranscript (state w2) = finalTranscript (state w)
      /\ interimTranscript (state w2) = interimTranscript (state w)
      /\ transcript (state w2) = transcript (state w)
      /\ results (state w2) = results (state w))
  /\ state w2 = set_error None (set_isListening true (state w1))
  /\ transcriptRef w2 = transcriptRef w1
  /\ optionsRef w2 = optionsRef w1
  /\ recognitionRef w2 = recognitionRef w1
  /\ commands w2 = commands w1.
Proof.
  intros w1 w2.
  assert (Hs : state w2 = set_error None (set_isListening true (state w1))).
  { unfold w2, onstart. now rewrite resetSilenceTimeout_state. }
  pose proof (startListening_transcripts rendered options outcome w) as H1.
  fold w1 in H1. simpl in H1.
  split; [exact H1|].
  split; [rewrite Hs; exact H1|].
  split; [exact Hs|].
  unfold w2, onstart, resetSilenceTimeout, clearSilenceTimeout.
  destruct (silenceTimeoutRef _) as [[|n]|];
    destruct (autoStopEnabled _); repeat split.
Qed.

(* ================================================================== *)
(** ** The watchdog: every pending timeout is the hook's current one *)

Lemma owned_frame w w' :
  watchdog w' = watchdog w -> timers_owned w -> timers_owned w'.
Proof.
  unfold watchdog, timers_owned. intros E H.
  injection E as -> -> ->. exact H.
Qed.

Lemma filter_all_out (id : nat) (l : list (nat * optional Z)) :
  (forall t, In t l -> fst t = id) ->
  filter (fun t => negb (Nat.eqb (fst t) id)) l = [].
Proof.
  induction l as [|t l IH]; intros H; simpl; [reflexivity|].
  rewrite (H t (or_introl eq_refl)), Nat.eqb_refl. simpl.
  apply IH. intros t' Ht'. apply H. now right.
Qed.

(** The guarded clearing leaves nothing pending. *)
Lemma clearSilenceTimeout_disarms w :
  timers_owned w ->
  timers (clearSilenceTimeout w) = []
  /\ silenceTimeoutRef (clearSilenceTimeout w) = None
  /\ nextTimerId (clearSilenceTimeout w) = nextTimerId w.
Proof.
  intros (Hown & Hz & _). unfold clearSilenceTimeout.
  destruct (silenceTimeoutRef w) as [[|n]|] eqn:E.
  - now elim Hz.
  - simpl. split; [|split; reflexivity].
    apply filter_all_out.
    intros t Ht. specialize (Hown t Ht). congruence.
  - split; [|split; [exact E | reflexivity]].
    destruct (timers w) as [|t l] eqn:Et; [reflexivity|].
    specialize (Hown t (or_introl eq_refl)). discriminate.
Qed.

Lemma clearSilenceTimeout_owned w :
  timers_owned w -> timers_owned (clearSilenceTimeout w).
Proof.
  intros H. destruct (clearSilenceTimeout_disarms w H) as (Ht & Hr & Hn).
  destruct H as (_ & _ & Hnz).
  unfold timers_owned. rewrite Ht, Hr, Hn.
  repeat split; [intros t [] | discriminate | exact Hnz].
Qed.

(** After [resetSilenceTimeout] a timeout is pending exactly when the
    options enable the auto-stop. *)
Lemma resetSilenceTimeout_arms w :
  timers_owned w ->
  timers_owned (resetSilenceTimeout w)
  /\ armed (resetSilenceTimeout w) = autoStopEnabled (optionsRef w)
  /\ truthy_number (silenceTimeoutRef (resetSilenceTimeout w)) =
     autoStopEnabled (optionsRef w).
Proof.
  intros H. unfold resetSilenceTimeout.
  rewrite clearSilenceTimeout_optionsRef.
  pose proof (clearSilenceTimeout_owned w H) as Hc.
  destruct (clearSilenceTimeout_disarms w H) as (Ht & Hr & Hn).
  destruct (autoStopEnabled (optionsRef w)).
  - unfold setTimeout, armed, timers_owned. simpl. rewrite Ht. simpl.
    destruct H as (_ & _ & Hnz). rewrite Hn.
    split; [|split; [reflexivity | now destruct (nextTimerId w)]].
    split; [|split].
    + intros t [<-|[]]. reflexivity.
    + intros E. injection E as E. contradiction.
    + discriminate.
  - split; [exact Hc|]. unfold armed. now rewrite Ht, Hr.
Qed.

Lemma clearTimeout_owned id w :
  timers_owned w -> timers_owned (clearTimeout id w).
Proof.
  intros (Hown & Hz & Hn). unfold timers_owned, clearTimeout. simpl.
  repeat split; [|exact Hz|exact Hn].
  intros t Ht. apply filter_In in Ht. now apply Hown.
Qed.

Lemma silenceCallback_watchdog w : watchdog (silenceCallback w) = watchdog w.
Proof.
  unfold silenceCallback.
  destruct (recognitionRef w); simpl;
    destruct (autoStopOnSilence _) as [| |a]; try reflexivity;
    destruct (onAutoStop a); try reflexivity;
    destruct (truthy_string _); reflexivity.
Qed.

(** What initialization leaves alone. *)
Lemma initializeSpeechRecognition_frame w :
  let w' := snd (initializeSpeechRecognition w) in
  watchdog w' = watchdog w
  /\ isListening (state w') = isListening (state w)
  /\ host w' = host w
  /\ optionsRef w' = optionsRef w
  /\ transcriptRef w' = transcriptRef w
  /\ recognitionRef w' = recognitionRef w
  /\ commands w' = commands w
  /\ queuedRefWrite w' = queuedRefWrite w.
Proof.
  unfold initializeSpeechRecognition.
  destruct (negb _); [repeat split|].
  destruct (getBrowserSpeechRecognition _) as [[|e]|]; repeat split.
Qed.

(** With the guards passed, overrides are merged first and the rest is
    the call without overrides. *)
Lemma startListening_overrides rendered o outcome w :
  isSupported rendered = true ->
  isListening rendered = false ->
  startListening rendered (Some o) outcome w =
  startListening rendered None outcome
    (with_optionsRef (mergeOptions (optionsRef w) o) w).
Proof.
  intros Hs Hl. unfold startListening. simpl. now rewrite Hs, Hl.
Qed.

Lemma startListening_plain_frame rendered outcome w :
  let w' := startListening rendered None outcome w in
  watchdog w' = watchdog w
  /\ isListening (state w') = isListening (state w)
  /\ host w' = host w
  /\ transcriptRef w' = transcriptRef w
  /\ queuedRefWrite w' = queuedRefWrite w.
Proof.
  unfold startListening.
  destruct (negb _); [repeat split|].
  destruct (isListening rendered); [now repeat split|].
  destruct (recognitionRef w) eqn:ER.
  - rewrite ER. destruct outcome; now repeat split.
  - pose proof (initializeSpeechRecognition_frame w) as H.
    destruct (initializeSpeechRecognition w) as [r w']. simpl in *.
    destruct H as (H1 & H2 & H3 & _ & H5 & _ & _ & H8).
    destruct r; [destruct outcome|]; now repeat split.
Qed.

Lemma startListening_frame rendered options outcome w :
  let w' := startListening rendered options outcome w in
  watchdog w' = watchdog w
  /\ isListening (state w') = isListening (state w)
  /\ host w' = host w
  /\ transcriptRef w' = transcriptRef w
  /\ queuedRefWrite w' = queuedRefWrite w.
Proof.
  destruct options as [o|]; [|apply startListening_plain_frame].
  destruct (isSupported rendered) eqn:Hs.
  - destruct (isListening rendered) eqn:Hl.
    + unfold startListening. rewrite Hs, Hl. simpl. now repeat split.
    + rewrite startListening_overrides by assumption.
      apply (startListening_plain_frame rendered outcome
               (with_optionsRef (mergeOptions (optionsRef w) o) w)).
  - unfold startListening. rewrite Hs. simpl. now repeat split.
Qed.

Lemma unmount_disarms w :
  timers_owned w ->
  timers_owned (unmount w) /\ timers (unmount w) = []
  /\ state (unmount w) = state w.
Proof.
  intros H. unfold unmount, cleanupUnmount, cleanupInitialize.
  set (w1 := match recognitionRef w with Some _ => _ | None => _ end).
  assert (H1 : timers_owned w1 /\ state w1 = state w).
  { subst w1. destruct (recognitionRef w); split; try reflexivity;
      try exact H; now apply (owned_frame w). }
  destruct H1 as (H1 & S1).
  pose proof (clearSilenceTimeout_owned w1 H1) as H2.
  destruct (clearSilenceTimeout_disarms w1 H1) as (T2 & _).
  pose proof (clearSilenceTimeout_state w1) as S2.
  set (w2 := clearSilenceTimeout w1) in *.
  set (w3 := match recognitionRef w2 with Some _ => _ | None => _ end).
  assert (H3 : timers_owned w3 /\ timers w3 = [] /\ state w3 = state w).
  { subst w3. destruct (recognitionRef w2).
    - split; [now apply (owned_frame w2)|].
      split; [exact T2 | simpl; congruence].
    - split; [exact H2|]. split; [exact T2 | congruence]. }
  destruct H3 as (H3 & T3 & S3).
  split; [now apply clearSilenceTimeout_owned|].
  split; [now apply clearSilenceTimeout_disarms|].
  now rewrite clearSilenceTimeout_state.
Qed.

Lemma mounted_frame h o :
  watchdog (mounted h o) = ([], None, 1)
  /\ isListening (state (mounted h o)) = false
  /\ host (mounted h o) = h.
Proof.
  unfold mounted, mountEffect.
  pose proof (initializeSpeechRecognition_frame (useSpeechToText h o)) as H.
  destruct (initializeSpeechRecognition _) as [r w']. simpl in *.
  destruct H as (H1 & H2 & H3 & _). now repeat split.
Qed.

Lemma mounted_owned h o : timers_owned (mounted h o).
Proof.
  destruct (mounted_frame h o) as (E & _).
  unfold watchdog in E. injection E as Et Er En.
  unfold timers_owned. rewrite Et, Er, En.
  repeat split; [intros t [] | discriminate | discriminate].
Qed.

(** Every event keeps the pending timeouts owned. *)
Lemma step_owned e w : timers_owned w -> timers_owned (step e w).
Proof.
  intros H. destruct e; simpl.
  - apply (owned_frame w); [apply startListening_frame | exact H].
  - unfold stopListening. destruct (recognitionRef w); [|exact H].
    destruct (isListening _); [|exact H].
    apply (owned_frame (clearSilenceTimeout w)); [reflexivity|].
    now apply clearSilenceTimeout_owned.
  - unfold abortListening. destruct (recognitionRef w); [|exact H].
    apply (owned_frame (clearSilenceTimeout w)); [reflexivity|].
    now apply clearSilenceTimeout_owned.
  - now apply (owned_frame w).
  - now apply (owned_frame w).
  - unfold onstart. apply resetSilenceTimeout_arms.
    now apply (owned_frame w).
  - unfold onresult.
    apply (owned_frame (resetSilenceTimeout w)); [reflexivity|].
    now apply resetSilenceTimeout_arms.
  - now apply (owned_frame w).
  - unfold onend.
    apply (owned_frame (clearSilenceTimeout w)); [reflexivity|].
    now apply clearSilenceTimeout_owned.
  - unfold fireTimeout.
    apply (owned_frame (clearTimeout id w));
      [apply silenceCallback_watchdog|].
    now apply clearTimeout_owned.
  - now apply unmount_disarms.
  - unfold remount, mountEffect.
    pose proof (initializeSpeechRecognition_frame (unmount w)) as F.
    destruct (initializeSpeechRecognition (unmount w)) as [r w'].
    simpl in F. destruct F as (F & _).
    apply (owned_frame (unmount w)); [exact F|].
    now apply unmount_disarms.
  - unfold runUpdaters. destruct (queuedRefWrite w); [|exact H].
    now apply (owned_frame w).
Qed.

Lemma reachable_owned h o w : reachable h o w -> timers_owned w.
Proof.
  induction 1 as [|w e _ IH _]; [apply mounted_owned | now apply step_owned].
Qed.


Lemma run_reachable h o es :
  forall w, reachable h o w -> feasible es w = true ->
            reachable h o (run es w).
Proof.
  induction es as [|e es IH]; intros w R F; simpl in *; [exact R|].
  apply andb_true_iff in F as (Fe & Fes).
  apply IH; [now constructor | exact Fes].
Qed.

Lemma run_steady h o es :
  forall w, steady h o w -> all_calm es w = true -> steady h o (run es w).
Proof.
  induction es as [|e es IH]; intros w R F; simpl in *; [exact R|].
  apply andb_true_iff in F as (Fe & Fes).
  apply andb_true_iff in Fe as (Fp & Fc).
  apply IH; [now apply steady_step | exact Fes].
Qed.

Lemma clearSilenceTimeout_rest w :
  beyond_watchdog (clearSilenceTimeout w) = beyond_watchdog w.
Proof. unfold clearSilenceTimeout. now destruct (silenceTimeoutRef w) as [[|n]|]. Qed.

Lemma resetSilenceTimeout_rest w :
  beyond_watchdog (resetSilenceTimeout w) = beyond_watchdog w.
Proof.
  unfold resetSilenceTimeout.
  destruct (autoStopEnabled _); [|apply clearSilenceTimeout_rest].
  simpl. rewrite <- (clearSilenceTimeout_rest w). reflexivity.
Qed.


(* ================================================================== *)
(** ** [abortListening] *)

(** [abortListening] always returns, and never changes the state object,
    the options, the transcript ref or the instance.  With a live
    capability instance it leaves no silence timer pending and sends one
    abort command; without an instance it returns the world it got. *)
Lemma abortListening_effect
  (h : Host) (o : option SpeechToTextOptions) (w : Hook) :
  reachable h o w ->
  state (abortListening w) = state w
  /\ optionsRef (abortListening w) = optionsRef w
  /\ transcriptRef (abortListening w) = transcriptRef w
  /\ recognitionRef (abortListening w) = recognitionRef w
  /\ match recognitionRef w with
     | Some _ =>
         armed (abortListening w) = false
         /\ silenceTimeoutRef (abortListening w) = None
         /\ commands (abortListening w) = commands w ++ [CmdAbort]
     | None => abortListening w = w
     end.
Proof.
  intros R. apply reachable_owned in R.
  unfold abortListening.
  destruct (recognitionRef w) eqn:ER; [|now repeat split].
  pose proof (clearSilenceTimeout_rest w) as E.
  destruct (clearSilenceTimeout_disarms w R) as (Ht & Hr & _).
  unfold beyond_watchdog in E.
  injection E as _ Es Er _ Et Eo Ec _ _ _.
  unfold armed. simpl. rewrite Ht, Hr, Es, Er, Et, Eo, Ec.
  now repeat split.
Qed.

(** C3: evaluated on a hook with the auto-stop enabled that is started and
    torn down, and whose capability then delivers the start event: no
    instance is live, and the handler of the start event has armed a
    silence timer.  [abortListening] returns that world as it is: the
    timer is still pending and [silenceTimeoutRef] still holds it, where
    the specification (and the function's own comment, "Clears the
    silence timeout if it exists") has it disarmed.  The teardown, which
    clears the timer outside its instance guard, does disarm it there. *)
Theorem abortListening_leaves_timer_without_instance :
  feasible start_after_unmount (mounted chrome (Some autoStop2s)) = true
  /\ recognitionRef after_late_start = None
  /\ armed after_late_start = true
  /\ abortListening after_late_start = after_late_start
  /\ armed (abortListening after_late_start) = true
  /\ silenceTimeoutRef (abortListening after_late_start) = Some 1
  /\ pending 1 (abortListening after_late_start) = true
  /\ armed (unmount after_late_start) = false.
Proof. vm_compute. repeat split. Qed.

(** In a host without the capability no instance is ever constructed:
    [abortListening] has nothing to abort and nothing to disarm. *)
Example abortListening_in_firefox :
  recognitionRef (mounted firefox None) = None
  /\ armed (mounted firefox None) = false
  /\ abortListening (mounted firefox None) = mounted firefox None.
Proof. vm_compute. repeat split. Qed.

(* ================================================================== *)
(** ** The watchdog and the listening flag *)












(** A session without a stop is steady from the mount on. *)
Example while_listening_steady :
  steady chrome (Some autoStop2s) while_listening
  /\ armed while_listening = true.
Proof.
  split; [|vm_compute; reflexivity].
  apply run_steady; [constructor | vm_compute; reflexivity].
Qed.


(** A result event after the end arms a timer while the hook is not
    listening; a [startListening] kept from the idle render and called
    while the hook listens enables the auto-stop with no timer armed. *)
Example late_result_and_stale_start_break_step :
  (feasible late_result (mounted chrome (Some autoStop2s)) = true
   /\ isListening (state after_late_result) = false
   /\ armed after_late_result = true)
  /\ (isListening (state after_stale_autoStop) = true
      /\ autoStopEnabled (optionsRef after_stale_autoStop) = true
      /\ armed after_stale_autoStop = false).
Proof. vm_compute. repeat split. Qed.

(** [stopListening] and the firing watchdog break the equivalence from
    the other side: after either, the hook is still listening with the
    auto-stop enabled and no timer is pending. *)
Example stop_and_fire_disarm_while_listening :
  (isListening
     (state (stopListening (state while_listening) while_listening)) = true
   /\ armed (stopListening (state while_listening) while_listening) = false)
  /\ (pending 2 while_listening = true
      /\ isListening (state (fireTimeout 2 while_listening)) = true
      /\ armed (fireTimeout 2 while_listening) = false
      /\ commands (fireTimeout 2 while_listening) = [CmdStart; CmdStop]).
Proof. vm_compute. repeat split. Qed.

(* ================================================================== *)
(** ** Listening implies supported *)

Lemma listening_supported_keep h w w' :
  host w' = host w ->
  isSupported (state w') = isSupported (state w) ->
  constructed w' = constructed w ->
  (isListening (state w') = true -> 0 < constructed w) ->
  listening_supported h w -> listening_supported h w'.
Proof.
  intros Eh Es Ec Hl (Hh & _ & Hc).
  unfold listening_supported. rewrite Eh, Es, Ec.
  split; [exact Hh|]. split; [exact Hl | exact Hc].
Qed.

(** Initialization constructs an instance exactly in a usable host. *)
Lemma initializeSpeechRecognition_support w :
  let w' := snd (initializeSpeechRecognition w) in
  (usable (host w) /\ constructed w' = S (constructed w)
   /\ isSupported (state w') = true)
  \/ (~ usable (host w) /\ constructed w' = constructed w
      /\ isSupported (state w') = false
      /\ fst (initializeSpeechRecognition w) = None).
Proof.
  unfold initializeSpeechRecognition, usable.
  destruct (bc_isSupported (checkBrowserCompatibility (host w))); simpl.
  - destruct (getBrowserSpeechRecognition (host w)) as [[|e]|]; simpl.
    + left. now repeat split.
    + right. repeat split. intros [_ X]. discriminate.
    + right. repeat split. intros [_ X]. discriminate.
  - right. repeat split. intros [X _]. discriminate.
Qed.

Lemma initializeSpeechRecognition_supported h w :
  listening_supported h w ->
  listening_supported h (snd (initializeSpeechRecognition w)).
Proof.
  intros (Hh & Hl & Hc).
  pose proof (initializeSpeechRecognition_support w) as H.
  pose proof (initializeSpeechRecognition_frame w) as F.
  destruct (initializeSpeechRecognition w) as [r w']. simpl in *.
  destruct F as (_ & Fl & Fh & _).
  unfold listening_supported. rewrite Fh, Fl.
  split; [exact Hh|].
  destruct H as [(U & C & S)|(NU & C & _)]; rewrite C.
  - split; [intros _; apply Nat.lt_0_succ|].
    intros _. rewrite <- Hh. now split.
  - split; [exact Hl|].
    intros P. destruct (Hc P) as (_ & U).
    rewrite <- Hh in U. contradiction.
Qed.

Lemma mountEffect_supported h w :
  listening_supported h w -> listening_supported h (mountEffect w).
Proof.
  intros LS. apply initializeSpeechRecognition_supported in LS.
  unfold mountEffect.
  destruct (initializeSpeechRecognition w) as [r w']. simpl in LS.
  apply (listening_supported_keep h w'); try reflexivity;
    [apply LS | exact LS].
Qed.

Lemma mounted_listening_supported h o : listening_supported h (mounted h o).
Proof.
  apply mountEffect_supported.
  unfold listening_supported. simpl.
  split; [reflexivity|]. split; [discriminate|].
  intros X. inversion X.
Qed.

(** The world [w'] differs from [w], for which the invariant [LS] is
    known, in nothing the invariant looks at, or only by not listening. *)
Ltac keep w LS :=
  apply (listening_supported_keep _ w);
  try reflexivity; try exact LS; try (apply LS);
  try (simpl; intros; discriminate).

Lemma startListening_plain_supported h rendered outcome w :
  listening_supported h w ->
  listening_supported h (startListening rendered None outcome w).
Proof.
  intros LS. unfold startListening.
  destruct (isSupported rendered) eqn:Hs; simpl; [|keep w LS].
  destruct (isListening rendered) eqn:Hl; [exact LS|].
  destruct (recognitionRef w) eqn:ER.
  - rewrite ER. destruct outcome; keep w LS.
  - pose proof (initializeSpeechRecognition_supported h w LS) as LS'.
    destruct (initializeSpeechRecognition w) as [r w']. simpl in *.
    destruct r; [|keep w' LS'].
    destruct outcome; keep w' LS'.
Qed.

Lemma startListening_supported h rendered options outcome w :
  listening_supported h w ->
  listening_supported h (startListening rendered options outcome w).
Proof.
  intros LS.
  destruct options as [o|]; [|now apply startListening_plain_supported].
  destruct (isSupported rendered) eqn:Hs.
  - destruct (isListening rendered) eqn:Hl.
    + unfold startListening. now rewrite Hs, Hl.
    + rewrite startListening_overrides by assumption.
      apply startListening_plain_supported. keep w LS.
  - unfold startListening. rewrite Hs. simpl. keep w LS.
Qed.

Lemma cleanupInitialize_support w :
  host (cleanupInitialize w) = host w
  /\ state (cleanupInitialize w) = state w
  /\ constructed (cleanupInitialize w) = constructed w.
Proof.
  unfold cleanupInitialize.
  set (w1 := match recognitionRef w with Some _ => _ | None => _ end).
  pose proof (clearSilenceTimeout_rest w1) as E.
  unfold beyond_watchdog in E. injection E as -> -> _ _ _ _ _ _ -> _.
  subst w1. now destruct (recognitionRef w).
Qed.

Lemma cleanupUnmount_support w :
  host (cleanupUnmount w) = host w
  /\ state (cleanupUnmount w) = state w
  /\ constructed (cleanupUnmount w) = constructed w.
Proof.
  unfold cleanupUnmount.
  set (w1 := match recognitionRef w with Some _ => _ | None => _ end).
  pose proof (clearSilenceTimeout_rest w1) as E.
  unfold beyond_watchdog in E. injection E as -> -> _ _ _ _ _ _ -> _.
  subst w1. now destruct (recognitionRef w).
Qed.

Lemma unmount_support w :
  host (unmount w) = host w
  /\ state (unmount w) = state w
  /\ constructed (unmount w) = constructed w.
Proof.
  unfold unmount.
  destruct (cleanupUnmount_support (cleanupInitialize w)) as (-> & -> & ->).
  apply cleanupInitialize_support.
Qed.

Lemma unmount_supported h w :
  listening_supported h w -> listening_supported h (unmount w).
Proof.
  intros LS. destruct (unmount_support w) as (Eh & Es & Ec).
  apply (listening_supported_keep h w);
    [exact Eh | now rewrite Es | exact Ec | rewrite Es; apply LS | exact LS].
Qed.

Lemma step_listening_supported h e w :
  possible e w = true ->
  listening_supported h w -> listening_supported h (step e w).
Proof.
  intros P LS. destruct e; simpl step.
  - now apply startListening_supported.
  - unfold stopListening, clearSilenceTimeout.
    destruct (recognitionRef w); [|exact LS].
    destruct (isListening (captured cb w)) eqn:L; [|exact LS].
    destruct (silenceTimeoutRef w) as [[|n]|]; keep w LS.
  - unfold abortListening, clearSilenceTimeout.
    destruct (recognitionRef w); [|exact LS].
    destruct (silenceTimeoutRef w) as [[|n]|]; keep w LS.
  - keep w LS.
  - keep w LS.
  - simpl in P. apply Nat.ltb_lt in P.
    unfold onstart, resetSilenceTimeout, clearSilenceTimeout. simpl.
    destruct (silenceTimeoutRef w) as [[|n]|]; simpl;
      destruct (autoStopEnabled (optionsRef w)); simpl;
      (apply (listening_supported_keep h w); try reflexivity;
       [now intros _ | exact LS]).
  - unfold onresult, resetSilenceTimeout, clearSilenceTimeout.
    destruct (silenceTimeoutRef w) as [[|n]|]; simpl;
      destruct (autoStopEnabled (optionsRef w)); simpl; keep w LS.
  - keep w LS.
  - unfold onend, clearSilenceTimeout.
    destruct (silenceTimeoutRef w) as [[|n]|]; keep w LS.
  - unfold fireTimeout, silenceCallback.
    set (w0 := clearTimeout id w).
    assert (LS0 : listening_supported h w0) by keep w LS.
    destruct (recognitionRef w0); simpl;
      destruct (autoStopOnSilence _) as [| |a]; try solve [keep w0 LS0];
      destruct (onAutoStop a); try solve [keep w0 LS0];
      destruct (truthy_string _); keep w0 LS0.
  - now apply unmount_supported.
  - apply mountEffect_supported. now apply unmount_supported.
  - unfold runUpdaters. destruct (queuedRefWrite w); [keep w LS | exact LS].
Qed.

Lemma reachable_listening_supported h o w :
  reachable h o w -> listening_supported h w.
Proof.
  induction 1 as [|w e _ IH P];
    [apply mounted_listening_supported
    | now apply step_listening_supported].
Qed.

(* ================================================================== *)
(** ** [startListening] while listening *)

(** C7, amended: a [startListening] created by a render that shows the
    hook listening, with or without overrides and whatever the
    capability's [start] would do, returns the world unchanged whenever
    it is called: no command is sent, and the state, the working options
    and the configuration of the capability are as before.  The render
    shows the state [state w0] of a reachable world; the call may come in
    that world or in any other. *)
Theorem startListening_while_listening_noop
  (h : Host) (o : option SpeechToTextOptions) (w0 w : Hook)
  (options : option SpeechToTextOptions) (outcome : StartOutcome) :
  reachable h o w0 ->
  isListening (state w0) = true ->
  startListening (state w0) options outcome w = w.
Proof.
  intros R L.
  destruct (reachable_listening_supported h o w0 R) as (_ & Hl & Hc).
  destruct (Hc (Hl L)) as (S & _).
  unfold startListening. now rewrite S, L.
Qed.

Lemma startListening_while_listening_noop_witness :
  reachable chrome None while_listening_default
  /\ isListening (state while_listening_default) = true
  /\ step (StartListening CurrentRender (Some french) Started)
       while_listening_default =
     while_listening_default.
Proof.
  assert (R : reachable chrome None while_listening_default).
  { apply run_reachable; [constructor | vm_compute; reflexivity]. }
  assert (L : isListening (state while_listening_default) = true)
    by (vm_compute; reflexivity).
  split; [exact R|]. split; [exact L|].
  exact (startListening_while_listening_noop _ _ while_listening_default
           while_listening_default (Some french) Started R L).
Defined.

(** The hook is listening, and the caller calls the [startListening] it
    kept from the render after initialization, with a language override:
    the guard tests the listening flag of that render, which is off.
    The override is merged into the working options, the instance is
    configured with it, and a second start command goes to the
    capability, which is started already and throws; the state then
    carries a START_ERROR. *)
Lemma stale_startListening_starts_again :
  feasible listening_session (mounted chrome None) = true
  /\ isListening (state while_listening_default) = true
  /\ isListening idle_render = false
  /\ possible
       (StartListening (EarlierRender idle_render) (Some french)
          (StartThrows (ThrownError "already started")))
       while_listening_default = true
  /\ commands while_listening_default = [CmdStart]
  /\ commands after_stale_start = [CmdStart; CmdStart]
  /\ language (optionsRef while_listening_default) = Val "en-US"
  /\ language (optionsRef after_stale_start) = Val "fr-FR"
  /\ option_map rec_lang (recognitionRef after_stale_start) = Some "fr-FR"
  /\ option_map code (error (state after_stale_start)) = Some "START_ERROR"
  /\ after_stale_start <> while_listening_default.
Proof. vm_compute. repeat split. discriminate. Qed.

(* ================================================================== *)
(** ** The final transcript only grows *)

Lemma silenceCallback_state w : state (silenceCallback w) = state w.
Proof.
  unfold silenceCallback.
  destruct (recognitionRef w); simpl;
    destruct (autoStopOnSilence _) as [| |a]; try reflexivity;
    destruct (onAutoStop a); try reflexivity;
    destruct (truthy_string _); reflexivity.
Qed.

(** Every event but [resetTranscript] extends the final transcript by a
    suffix, which is empty unless the event is a result. *)
Lemma step_final_suffix e w :
  e <> ResetTranscript ->
  exists suffix,
    finalTranscript (state (step e w)) =
    (finalTranscript (state w) ++ suffix)%string.
Proof.
  intros Hne.
  destruct e; simpl step;
    match goal with
    | |- context [onresult] => idtac
    | _ => exists ""; rewrite append_empty_r
    end.
  - now destruct (startListening_transcripts (captured cb w) options outcome w)
      as (H & _).
  - unfold stopListening. destruct (recognitionRef w); [|reflexivity].
    destruct (isListening _); [|reflexivity].
    simpl. now rewrite clearSilenceTimeout_state.
  - unfold abortListening. destruct (recognitionRef w); [|reflexivity].
    simpl. now rewrite clearSilenceTimeout_state.
  - now elim Hne.
  - reflexivity.
  - unfold onstart. now rewrite resetSilenceTimeout_state.
  - exists (texts (filter isFinal (processed event))).
    apply onresult_fields.
  - reflexivity.
  - unfold onend. simpl. now rewrite clearSilenceTimeout_state.
  - unfold fireTimeout. now rewrite silenceCallback_state.
  - now destruct (unmount_support w) as (_ & -> & _).
  - unfold remount, mountEffect.
    pose proof (initializeSpeechRecognition_transcripts (unmount w)) as T.
    destruct (initializeSpeechRecognition (unmount w)) as [r w'].
    simpl in *. destruct T as (-> & _).
    now destruct (unmount_support w) as (_ & -> & _).
  - unfold runUpdaters. now destruct (queuedRefWrite w).
Qed.

(** C6: over any sequence of events without [resetTranscript], result
    events included, the final transcript at the start is a prefix of the
    final transcript at the end; and the interim transcript left by a
    result event is made of the non-final texts of that event alone,
    whatever the world the event arrives in. *)
Theorem final_grows_interim_replaced (es : list Event) (w : Hook) :
  ~ In ResetTranscript es ->
  String.prefix (finalTranscript (state w))
    (finalTranscript (state (run es w))) = true
  /\ forall event now,
       interimTranscript (state (onresult event now (run es w))) =
         texts (filter notFinal (processed event))
       /\ forall w',
            interimTranscript (state (onresult event now (run es w))) =
            interimTranscript (state (onresult event now w')).
Proof.
  intros Hno. split.
  - revert w. induction es as [|e es IH]; intros w; simpl.
    + apply prefix_refl.
    + apply (prefix_trans _ (finalTranscript (state (step e w)))).
      * destruct (step_final_suffix e w) as (suffix & ->).
        { intros ->. apply Hno. now left. }
        apply prefix_append.
      * apply IH. intros H. apply Hno. now right.
  - intros event now.
    destruct (onresult_fields event now (run es w)) as (_ & Hi & _).
    split; [exact Hi|].
    intros w'. rewrite Hi. symmetry. apply onresult_fields.
Qed.

Lemma final_grows_interim_replaced_witness :
  ~ In ResetTranscript second_final_and_end
  /\ finalTranscript (state after_one_final) = "hello "
  /\ finalTranscript (state (run second_final_and_end after_one_final)) =
     "hello world"
  /\ String.prefix (finalTranscript (state after_one_final))
       (finalTranscript (state (run second_final_and_end after_one_final))) =
     true.
Proof.
  assert (N : ~ In ResetTranscript second_final_and_end).
  { unfold second_final_and_end. simpl. intuition discriminate. }
  split; [exact N|].
  split; [vm_compute; reflexivity|].
  split; [vm_compute; reflexivity|].
  exact (proj1 (final_grows_interim_replaced second_final_and_end
                  after_one_final N)).
Defined.

(** Only [resetTranscript] shrinks the final transcript. *)
Example resetTranscript_shrinks :
  finalTranscript (state after_one_final) = "hello "
  /\ finalTranscript (state (step ResetTranscript after_one_final)) = "".
Proof. vm_compute. repeat split. Qed.

(* ================================================================== *)
(** * Further properties of the hook *)

(** ** Capability detection *)

Lemma checkBrowserCompatibility_explained (h : Host) :
  explained (getBrowserSpeechRecognition h) (checkBrowserCompatibility h).
Proof.
  destruct h as [win|]; [|split; [split|]; discriminate].
  unfold checkBrowserCompatibility. cbv zeta.
  generalize (getBrowserSpeechRecognition (Some win)) as ctor. intros ctor.
  repeat lazymatch goal with
         | |- explained _ (if ?b then _ else _) => destruct b
         | |- explained _ (match ?x with Some _ => _ | None => _ end) =>
             destruct x as [[? ?]|]
         end;
    unfold explained, mkCheck; cbn [bc_isSupported bc_reason];
    try (destruct ((14 <? parseInt _)%Z || _));
    destruct ctor as [k|]; cbn [andb negb];
    (split; [split|]); intros; try discriminate; try reflexivity;
    now exists k.
Qed.

(** X1: in every host the probe gives a reason exactly when it answers
    unsupported: the reason is empty if and only if the answer is
    supported. *)
Theorem probe_reason_iff_unsupported (h : Host) :
  bc_isSupported (checkBrowserCompatibility h) = true <->
  bc_reason (checkBrowserCompatibility h) = "".
Proof. apply (checkBrowserCompatibility_explained h). Qed.

(** X2: the probe answers supported only where
    [getBrowserSpeechRecognition] finds a constructor, so the second guard
    of [initializeSpeechRecognition] never fires after a supported probe. *)
Theorem probe_supported_has_constructor (h : Host) :
  bc_isSupported (checkBrowserCompatibility h) = true ->
  exists k, getBrowserSpeechRecognition h = Some k.
Proof. apply (checkBrowserCompatibility_explained h). Qed.

Lemma probe_supported_has_constructor_witness :
  bc_isSupported (checkBrowserCompatibility chrome) = true
  /\ exists k, getBrowserSpeechRecognition chrome = Some k.
Proof.
  assert (S : bc_isSupported (checkBrowserCompatibility chrome) = true)
    by (vm_compute; reflexivity).
  split; [exact S|].
  exact (probe_supported_has_constructor chrome S).
Defined.

(** X3: Brave (a defined [navigator.brave]) and Firefox (a user agent
    that names it) are answered unsupported whatever constructors the
    window offers, Brave first. *)
Theorem probe_rejects_brave_and_firefox (win : Window) :
  defined (brave (navigator win)) = true
  \/ includes "firefox" (toLowerCase (userAgent (navigator win))) = true ->
  bc_isSupported (checkBrowserCompatibility (Some win)) = false
  /\ bc_browserName (checkBrowserCompatibility (Some win)) =
     (if defined (brave (navigator win)) then "Brave" else "Firefox").
Proof.
  intros H. unfold checkBrowserCompatibility. cbv zeta.
  destruct (defined (brave (navigator win))); [now split|].
  destruct H as [H|H]; [discriminate|].
  rewrite H. now split.
Qed.

Lemma probe_rejects_brave_and_firefox_witness :
  getBrowserSpeechRecognition firefox_with_constructor = Some Constructs
  /\ bc_isSupported (checkBrowserCompatibility firefox_with_constructor) =
     false
  /\ bc_browserName (checkBrowserCompatibility firefox_with_constructor) =
     "Firefox".
Proof.
  split; [vm_compute; reflexivity|].
  refine (probe_rejects_brave_and_firefox
            {| navigator :=
                 {| userAgent :=
                      "Mozilla/5.0 (X11; Linux x86_64; rv:120.0) Gecko/20100101 Firefox/120.0";
                    brave := Absent |};
               win_SpeechRecognition := Some Constructs;
               win_webkitSpeechRecognition := None;
               win_mozSpeechRecognition := None;
               win_msSpeechRecognition := None |} _).
  right. vm_compute. reflexivity.
Defined.

(** ** Initialization *)

(** X4: [initializeSpeechRecognition] ends in one of three ways, and never
    in the "constructor not found" error: NOT_SUPPORTED with the probe's
    reason, an instance configured from the options with the error left
    as it was, or INITIALIZATION_ERROR with the message of what the
    constructor threw.  In each case the hook is no longer initializing
    and says supported exactly when an instance is returned. *)
Theorem initializeSpeechRecognition_outcomes (w : Hook) :
  let r := fst (initializeSpeechRecognition w) in
  let s' := state (snd (initializeSpeechRecognition w)) in
  let c := checkBrowserCompatibility (host w) in
  isInitializing s' = false
  /\ isSupported s' = match r with Some _ => true | None => false end
  /\ ((bc_isSupported c = false /\ r = None
       /\ error s' =
          Some (mkError "NOT_SUPPORTED" (bc_reason c) "NotSupportedError"
                  (Some {| browserName := bc_browserName c;
                           reason := bc_reason c |})))
      \/ (usable (host w) /\ r = Some (configured (optionsRef w))
          /\ error s' = error (state w))
      \/ (exists e,
            getBrowserSpeechRecognition (host w) = Some (ConstructorThrows e)
            /\ r = None
            /\ error s' =
               Some (mkError "INITIALIZATION_ERROR"
                       (thrownMessage e
                          "Failed to initialize speech recognition")
                       "InitializationError" None))).
Proof.
  destruct (checkBrowserCompatibility_explained (host w)) as (_ & K).
  unfold initializeSpeechRecognition, usable.
  destruct (bc_isSupported (checkBrowserCompatibility (host w))); simpl.
  - destruct (K eq_refl) as (k & ->).
    destruct k as [|e]; simpl.
    + split; [reflexivity|]. split; [reflexivity|]. right. left.
      now repeat split.
    + split; [reflexivity|]. split; [reflexivity|]. right. right.
      exists e. now repeat split.
  - split; [reflexivity|]. split; [reflexivity|]. left. now repeat split.
Qed.

(** X5: in a host whose probe answers unsupported, the mounted hook is
    not supported, no longer initializing, has no instance, and holds a
    NOT_SUPPORTED error whose message is the probe's reason, which is not
    empty. *)
Theorem mounted_unsupported
  (h : Host) (o : option SpeechToTextOptions) :
  bc_isSupported (checkBrowserCompatibility h) = false ->
  isSupported (state (mounted h o)) = false
  /\ isInitializing (state (mounted h o)) = false
  /\ recognitionRef (mounted h o) = None
  /\ error (state (mounted h o)) =
       Some (mkError "NOT_SUPPORTED"
               (bc_reason (checkBrowserCompatibility h)) "NotSupportedError"
               (Some {| browserName :=
                          bc_browserName (checkBrowserCompatibility h);
                        reason := bc_reason (checkBrowserCompatibility h) |}))
  /\ bc_reason (checkBrowserCompatibility h) <> "".
Proof.
  intros U.
  assert (R : bc_reason (checkBrowserCompatibility h) <> "").
  { intros E. apply (checkBrowserCompatibility_explained h) in E. congruence. }
  unfold mounted, mountEffect, initializeSpeechRecognition. simpl.
  rewrite U. simpl. now repeat split.
Qed.

Lemma mounted_unsupported_witness :
  bc_isSupported (checkBrowserCompatibility firefox) = false
  /\ isSupported (state (mounted firefox None)) = false
  /\ option_map message (error (state (mounted firefox None))) =
     Some "Firefox does not support Web Speech API".
Proof.
  assert (U : bc_isSupported (checkBrowserCompatibility firefox) = false)
    by (vm_compute; reflexivity).
  split; [exact U|].
  destruct (mounted_unsupported firefox None U) as (S & _ & _ & E & _).
  split; [exact S|].
  rewrite E. vm_compute. reflexivity.
Defined.

(** ** Stages of [startListening] *)

Lemma startListening_stages rendered options outcome w :
  startListening rendered options outcome w =
  if negb (isSupported rendered) then
    with_state
      (set_error
         (Some (mkError "NOT_SUPPORTED" "Speech recognition is not supported"
                  "NotSupportedError"
                  (Some {| browserName :=
                             bc_browserName
                               (checkBrowserCompatibility (host w));
                           reason :=
                             bc_reason
                               (checkBrowserCompatibility (host w)) |})))) w
  else if isListening rendered then w
  else
    let w2 := ensureInstance (withOverrides options w) in
    match recognitionRef w2 with
    | Some _ => configureAndStart outcome w2
    | None => w2
    end.
Proof.
  unfold startListening.
  destruct (negb _); [reflexivity|].
  destruct (isListening _); [reflexivity|].
  reflexivity.
Qed.

(** Case analysis on whatever the goal still matches on, innermost
    scrutinee first, keeping the equations. *)
Ltac break_match :=
  match goal with
  | |- context [match ?x with _ => _ end] =>
      lazymatch x with
      | context [match _ with _ => _ end] => fail
      | _ => destruct x eqn:?
      end
  end.

Ltac settle_matches :=
  repeat (simpl in *;
          repeat match goal with
                 | H : ?a = _ |- context [match ?a with _ => _ end] =>
                     rewrite H
                 end;
          try break_match).

Ltac unfold_handlers :=
  unfold stopListening, abortListening, resetTranscript, clearError,
    onstart, onresult, onerror, onend, fireTimeout, silenceCallback,
    unmount, remount, cleanupUnmount, cleanupInitialize,
    ensureInstance, withOverrides, configureAndStart, runUpdaters,
    resetSilenceTimeout, clearSilenceTimeout, setTimeout, clearTimeout.

(** ** The transcript ref mirrors the state *)

Lemma runUpdaters_settles w :
  transcriptRef (runUpdaters w) = settledRef w
  /\ state (runUpdaters w) = state w
  /\ queuedRefWrite (runUpdaters w) = None.
Proof.
  unfold runUpdaters, settledRef.
  destruct (queuedRefWrite w) eqn:Q; now repeat split.
Qed.

(** The invariant unfolded, by cases on the queue. *)
Ltac open_mirrors M w :=
  let M' := fresh "M" in
  pose proof M as M'; unfold mirrors, settledRef in M';
  destruct (queuedRefWrite w) eqn:?.

Lemma mountEffect_mirrors w : mirrors w -> mirrors (mountEffect w).
Proof.
  intros M. open_mirrors M w;
    unfold mirrors, settledRef, mountEffect, initializeSpeechRecognition;
    settle_matches; congruence.
Qed.

Lemma unmount_mirrors w : mirrors w -> mirrors (unmount w).
Proof.
  intros M. open_mirrors M w;
    unfold mirrors, settledRef; unfold_handlers;
    settle_matches; congruence.
Qed.

Lemma step_mirrors e w :
  unbatched e w = true -> mirrors w -> mirrors (step e w).
Proof.
  intros U M.
  destruct e; simpl step;
    try (unfold remount; now apply mountEffect_mirrors, unmount_mirrors);
    try rewrite startListening_stages;
    open_mirrors M w;
    unfold_handlers; simpl in U; settle_matches;
    repeat match goal with
           | |- context [mountEffect ?x] =>
               let H := fresh "ME" in
               assert (H : mirrors (mountEffect x))
                 by (apply mountEffect_mirrors; exact M);
               generalize dependent (mountEffect x); intros
           end;
    unfold mirrors, settledRef in *; settle_matches;
    try match goal with
        | E : queuedRefWrite w = Some _ |- _ =>
            rewrite E in U; discriminate U
        end;
    try assumption; try reflexivity; try congruence.
Qed.

Lemma orderly_mirrors h o w : orderly h o w -> mirrors w.
Proof.
  induction 1 as [|w e _ IH _ U]; [|now apply step_mirrors].
  now apply mountEffect_mirrors.
Qed.

Lemma orderly_reachable h o w : orderly h o w -> reachable h o w.
Proof.
  induction 1 as [|w e _ IH P _]; now constructor.
Qed.

Lemma run_orderly h o es :
  forall w, orderly h o w -> all_unbatched es w = true ->
            orderly h o (run es w).
Proof.
  induction es as [|e es IH]; intros w R F; simpl in *; [exact R|].
  apply andb_true_iff in F as (Fe & Fes).
  apply andb_true_iff in Fe as (Fp & Fc).
  apply IH; [now constructor | exact Fes].
Qed.

(** X6: as long as [resetTranscript] is not called while the updater of a
    result event is queued, [transcriptRef] holds, once React has run the
    queued updaters, exactly the final and interim transcripts of the
    state; where no updater is queued it holds them as it is. *)
Theorem transcriptRef_mirrors_state
  (h : Host) (o : option SpeechToTextOptions) (w : Hook) :
  orderly h o w ->
  (ref_final (transcriptRef (runUpdaters w)) =
     finalTranscript (state (runUpdaters w))
   /\ ref_interim (transcriptRef (runUpdaters w)) =
      interimTranscript (state (runUpdaters w)))
  /\ (queuedRefWrite w = None ->
      ref_final (transcriptRef w) = finalTranscript (state w)
      /\ ref_interim (transcriptRef w) = interimTranscript (state w)).
Proof.
  intros R. apply orderly_mirrors in R. unfold mirrors in R.
  destruct (runUpdaters_settles w) as (-> & -> & _).
  split; [now rewrite R|].
  intros Q. unfold settledRef in R. rewrite Q in R. now rewrite R.
Qed.

Lemma transcriptRef_mirrors_state_witness :
  orderly chrome (Some autoStop2s) after_tour
  /\ ref_final (transcriptRef after_tour) = ""
  /\ ref_final (transcriptRef (runUpdaters after_tour)) = "bonjour "
  /\ ref_final (transcriptRef (runUpdaters after_tour)) =
     finalTranscript (state (runUpdaters after_tour)).
Proof.
  assert (R : orderly chrome (Some autoStop2s) after_tour).
  { apply run_orderly; [constructor | vm_compute; reflexivity]. }
  split; [exact R|]. split; [vm_compute; reflexivity|].
  split; [vm_compute; reflexivity|].
  exact (proj1 (proj1 (transcriptRef_mirrors_state _ _ after_tour R))).
Defined.

(** Where [resetTranscript] is called before React has run the updater
    of a result event, the updater writes the ref after the reset: the
    state shows no transcript and the ref holds "hello ", which a firing
    watchdog then hands to [onAutoStop]. *)
Example reset_in_batch_leaves_ref :
  feasible reset_in_batch (mounted chrome (Some autoStopNoDuration)) = true
  /\ finalTranscript (state after_reset_in_batch) = ""
  /\ queuedRefWrite after_reset_in_batch = None
  /\ ref_final (transcriptRef after_reset_in_batch) = "hello "
  /\ autoStopCalls (fireTimeout 2 after_reset_in_batch) = [(7, "hello ")].
Proof. vm_compute. repeat split. Qed.

(** ** The live instance follows the working options *)

Lemma mountEffect_configured w :
  instance_configured (mountEffect w).
Proof.
  unfold instance_configured, mountEffect, initializeSpeechRecognition.
  intros r. settle_matches; intros E; congruence.
Qed.

Lemma unmount_configured w : instance_configured (unmount w).
Proof.
  unfold instance_configured. intros r. unfold_handlers.
  settle_matches; intros E; congruence.
Qed.

Lemma step_configured e w :
  instance_configured w -> instance_configured (step e w).
Proof.
  intros M.
  destruct e; simpl step;
    try (unfold remount; now apply mountEffect_configured);
    try (now apply unmount_configured);
    try rewrite startListening_stages;
    unfold instance_configured in *; intros r;
    unfold_handlers; settle_matches;
    intros E; first [congruence | apply M; congruence].
Qed.

Lemma reachable_configured h o w : reachable h o w -> instance_configured w.
Proof.
  induction 1 as [|w e _ IH _]; [|now apply step_configured].
  apply mountEffect_configured.
Qed.

(** X7: in every reachable world a live capability instance carries the
    configuration derived from the working options, defaults included;
    options and instance never drift apart, because the options change
    only in [startListening], which reconfigures the instance. *)
Theorem instance_follows_options
  (h : Host) (o : option SpeechToTextOptions) (w : Hook)
  (r : SpeechRecognition) :
  reachable h o w ->
  recognitionRef w = Some r ->
  r = configured (optionsRef w).
Proof. intros R. now apply (reachable_configured h o w R). Qed.

Lemma instance_follows_options_witness :
  reachable chrome (Some autoStop2s) after_tour
  /\ recognitionRef after_tour = Some (configured (optionsRef after_tour))
  /\ rec_lang (configured (optionsRef after_tour)) = "fr-FR".
Proof.
  assert (R : reachable chrome (Some autoStop2s) after_tour).
  { apply run_reachable; [constructor | vm_compute; reflexivity]. }
  assert (E : recognitionRef after_tour =
              Some {| rec_continuous := true; rec_interimResults := true;
                      rec_maxAlternatives := 1; rec_lang := "fr-FR" |})
    by (vm_compute; reflexivity).
  split; [exact R|].
  rewrite <- (instance_follows_options _ _ after_tour _ R E).
  split; [exact E | reflexivity].
Defined.

(** ** Support is decided by the host *)

(** What the mount effect leaves alone. *)
Lemma mountEffect_frame w :
  timers (mountEffect w) = timers w
  /\ silenceTimeoutRef (mountEffect w) = silenceTimeoutRef w
  /\ nextTimerId (mountEffect w) = nextTimerId w
  /\ optionsRef (mountEffect w) = optionsRef w
  /\ transcriptRef (mountEffect w) = transcriptRef w
  /\ commands (mountEffect w) = commands w
  /\ autoStopCalls (mountEffect w) = autoStopCalls w
  /\ host (mountEffect w) = host w
  /\ isListening (state (mountEffect w)) = isListening (state w)
  /\ results (state (mountEffect w)) = results (state w).
Proof.
  unfold mountEffect, initializeSpeechRecognition.
  settle_matches; repeat split.
Qed.

Lemma mountEffect_settled h w :
  host w = h -> settled h (mountEffect w).
Proof.
  intros <-.
  unfold settled, usable, mountEffect, initializeSpeechRecognition.
  destruct (bc_isSupported (checkBrowserCompatibility (host w))); simpl;
    [destruct (getBrowserSpeechRecognition (host w)) as [[|e]|]; simpl|];
    (split; [reflexivity|]); (split; [reflexivity|]);
    split; try discriminate; try (intros [A B]; discriminate);
    now split.
Qed.

Lemma unmount_settled h w : settled h w -> settled h (unmount w).
Proof.
  unfold settled. intros M. unfold_handlers. settle_matches; exact M.
Qed.

Lemma step_settled h e w : settled h w -> settled h (step e w).
Proof.
  intros M.
  destruct e; simpl step;
    try (unfold remount; apply mountEffect_settled;
         now apply unmount_settled);
    try (now apply unmount_settled);
    try rewrite startListening_stages;
    unfold_handlers; settle_matches;
    repeat match goal with
           | |- context [mountEffect ?x] =>
               let H := fresh "ME" in
               assert (H : settled h (mountEffect x))
                 by (apply mountEffect_settled; simpl; apply M);
               generalize dependent (mountEffect x); intros
           end;
    unfold settled in *; simpl in *; assumption.
Qed.

Lemma reachable_settled h o w : reachable h o w -> settled h w.
Proof.
  induction 1 as [|w e _ IH _]; [|now apply step_settled].
  now apply mountEffect_settled.
Qed.

(** X8: once mounted, the hook is never again initializing, and in every
    reachable world it says supported exactly when its host is usable
    (the probe answers supported and the constructor constructs): no
    event, not even a new initialization, changes the verdict. *)
Theorem support_is_settled
  (h : Host) (o : option SpeechToTextOptions) (w : Hook) :
  reachable h o w ->
  isInitializing (state w) = false
  /\ (isSupported (state w) = true <-> usable h).
Proof. intros R. now destruct (reachable_settled h o w R) as (_ & A & B). Qed.

Lemma support_is_settled_witness :
  reachable chrome (Some autoStop2s) after_tour
  /\ isInitializing (state after_tour) = false
  /\ isSupported (state after_tour) = true
  /\ usable chrome.
Proof.
  assert (R : reachable chrome (Some autoStop2s) after_tour).
  { apply run_reachable; [constructor | vm_compute; reflexivity]. }
  assert (S : isSupported (state after_tour) = true)
    by (vm_compute; reflexivity).
  destruct (support_is_settled _ _ after_tour R) as (I & U).
  split; [exact R|]. split; [exact I|]. split; [exact S|].
  exact (proj1 U S).
Defined.

(** ** A hook in an unusable host does nothing *)

Lemma mountEffect_dormant w :
  ~ usable (host w) -> dormant w -> dormant (mountEffect w).
Proof.
  intros NU D.
  pose proof (initializeSpeechRecognition_support w) as S.
  destruct (mountEffect_frame w) as (Ft & _ & _ & _ & _ & Fc & Fa & _ & Fl & _).
  unfold dormant in *. rewrite Ft, Fc, Fa, Fl.
  destruct S as [(U & _)|(_ & C & _ & N)]; [contradiction|].
  unfold mountEffect.
  destruct (initializeSpeechRecognition w) as [r w']. simpl in *.
  subst r. rewrite C. intuition.
Qed.

Lemma unmount_dormant w : dormant w -> dormant (unmount w).
Proof.
  unfold dormant. intros (C & A & R & K & L & T).
  unfold_handlers. settle_matches; rewrite ?T;
    repeat split; try assumption; congruence.
Qed.

Lemma step_dormant h e w :
  ~ usable h -> settled h w -> possible e w = true ->
  dormant w -> dormant (step e w).
Proof.
  intros NU (Hh & _ & S) P D.
  assert (Su : isSupported (state w) = false).
  { destruct (isSupported (state w)); [|reflexivity].
    elim NU. now apply S. }
  destruct e; simpl step.
  - rewrite startListening_stages.
    destruct (negb (isSupported (captured cb w))); [exact D|].
    destruct (isListening (captured cb w)); [exact D|].
    cbv zeta.
    assert (D2 : dormant (ensureInstance (withOverrides options w))).
    { unfold ensureInstance.
      assert (D1 : dormant (withOverrides options w))
        by (destruct options; exact D).
      assert (H1 : host (withOverrides options w) = h)
        by (destruct options; exact Hh).
      pose proof D1 as (_ & _ & R & _). rewrite R.
      apply mountEffect_dormant; [now rewrite H1 | exact D1]. }
    pose proof D2 as (_ & _ & R2 & _). now rewrite R2.
  - unfold stopListening. pose proof D as (_ & _ & R & _). now rewrite R.
  - unfold abortListening. pose proof D as (_ & _ & R & _). now rewrite R.
  - exact D.
  - exact D.
  - simpl in P. destruct D as (_ & _ & _ & K & _). now rewrite K in P.
  - simpl in P. destruct D as (_ & _ & _ & K & _). now rewrite K in P.
  - simpl in P. destruct D as (_ & _ & _ & K & _). now rewrite K in P.
  - simpl in P. destruct D as (_ & _ & _ & K & _). now rewrite K in P.
  - simpl in P. unfold pending in P.
    destruct D as (_ & _ & _ & _ & _ & T). now rewrite T in P.
  - now apply unmount_dormant.
  - unfold remount. apply mountEffect_dormant; [|now apply unmount_dormant].
    destruct (unmount_support w) as (-> & _). now rewrite Hh.
  - unfold runUpdaters. destruct (queuedRefWrite w); exact D.
Qed.

(** X9: in a host that is not usable the hook stays dormant whatever is
    called: it never says supported or listening, never holds an instance,
    never sends a command to a capability, never arms a timer and never
    calls the auto-stop callback. *)
Theorem unusable_host_stays_dormant
  (h : Host) (o : option SpeechToTextOptions) (w : Hook) :
  ~ usable h ->
  reachable h o w ->
  isSupported (state w) = false
  /\ isListening (state w) = false
  /\ recognitionRef w = None
  /\ commands w = []
  /\ armed w = false
  /\ autoStopCalls w = [].
Proof.
  intros NU R.
  assert (D : dormant w).
  { induction R as [|w e R IH P].
    - apply mountEffect_dormant; [exact NU|]. now repeat split.
    - apply (step_dormant h); try assumption.
      now apply (reachable_settled h o). }
  destruct (reachable_settled h o w R) as (_ & _ & S).
  destruct D as (C & A & N & _ & L & T).
  unfold armed. rewrite T.
  repeat split; try assumption.
  destruct (isSupported (state w)); [|reflexivity].
  elim NU. now apply S.
Qed.

Lemma unusable_host_stays_dormant_witness :
  ~ usable firefox
  /\ reachable firefox (Some autoStop2s) after_attempts
  /\ commands after_attempts = []
  /\ option_map code (error (state after_attempts)) = Some "NOT_SUPPORTED".
Proof.
  assert (NU : ~ usable firefox).
  { intros (U & _). vm_compute in U. discriminate U. }
  assert (R : reachable firefox (Some autoStop2s) after_attempts).
  { apply run_reachable; [constructor | vm_compute; reflexivity]. }
  split; [exact NU|]. split; [exact R|].
  destruct (unusable_host_stays_dormant _ _ after_attempts NU R)
    as (_ & _ & _ & C & _).
  split; [exact C | vm_compute; reflexivity].
Defined.

(** ** One silence timer at most *)

Lemma resetSilenceTimeout_timers w :
  timers_owned w ->
  timers (resetSilenceTimeout w) = rearmed w
  /\ nextTimerId (resetSilenceTimeout w) =
     (if autoStopEnabled (optionsRef w)
      then S (nextTimerId w) else nextTimerId w).
Proof.
  intros O. unfold resetSilenceTimeout, rearmed.
  rewrite clearSilenceTimeout_optionsRef.
  destruct (clearSilenceTimeout_disarms w O) as (Ht & _ & Hn).
  destruct (autoStopEnabled (optionsRef w)); simpl;
    rewrite ?Ht, ?Hn; now split.
Qed.

Lemma filter_all_or_none (id : nat) (x : nat) (l : list (nat * optional Z)) :
  (forall t, In t l -> fst t = x) ->
  filter (fun t => negb (Nat.eqb (fst t) id)) l = l
  \/ filter (fun t => negb (Nat.eqb (fst t) id)) l = [].
Proof.
  intros H. destruct (Nat.eqb x id) eqn:E.
  - right. apply Nat.eqb_eq in E. subst x. now apply filter_all_out.
  - left. induction l as [|t l IH]; [reflexivity|]. simpl.
    rewrite (H t (or_introl eq_refl)), E. simpl. f_equal.
    apply IH. intros t' Ht'. apply H. now right.
Qed.

Lemma unmount_nextTimerId w :
  timers_owned w -> nextTimerId (unmount w) = nextTimerId w.
Proof.
  intros O.
  unfold unmount, cleanupUnmount, cleanupInitialize.
  set (w1 := match recognitionRef w with Some _ => _ | None => _ end).
  assert (N1 : nextTimerId w1 = nextTimerId w /\ timers_owned w1).
  { subst w1. destruct (recognitionRef w); split; try reflexivity; exact O. }
  destruct N1 as (N1 & O1).
  destruct (clearSilenceTimeout_disarms w1 O1) as (_ & _ & N2).
  pose proof (clearSilenceTimeout_owned w1 O1) as O2.
  set (w2 := clearSilenceTimeout w1) in *.
  set (w3 := match recognitionRef w2 with Some _ => _ | None => _ end).
  assert (N3 : nextTimerId w3 = nextTimerId w2 /\ timers_owned w3).
  { subst w3. destruct (recognitionRef w2); split; try reflexivity;
      exact O2. }
  destruct N3 as (N3 & O3).
  destruct (clearSilenceTimeout_disarms w3 O3) as (_ & _ & N4). congruence.
Qed.

(** What an event can do to the pending timeouts: nothing, clear them, or
    replace them by one fresh timeout. *)
Lemma step_timers e w :
  timers_owned w ->
  (timers (step e w) = timers w /\ nextTimerId (step e w) = nextTimerId w)
  \/ (timers (step e w) = [] /\ nextTimerId (step e w) = nextTimerId w)
  \/ (exists d, timers (step e w) = [(nextTimerId w, d)]
                /\ nextTimerId (step e w) = S (nextTimerId w)).
Proof.
  intros O.
  assert (clears : forall w', timers_owned w' ->
            timers (clearSilenceTimeout w') = []
            /\ nextTimerId (clearSilenceTimeout w') = nextTimerId w').
  { intros w' O'. now destruct (clearSilenceTimeout_disarms w' O') as (A & _ & B). }
  assert (rearms : forall w', timers_owned w' ->
            (timers (resetSilenceTimeout w') = []
             /\ nextTimerId (resetSilenceTimeout w') = nextTimerId w')
            \/ (exists d, timers (resetSilenceTimeout w') = [(nextTimerId w', d)]
                 /\ nextTimerId (resetSilenceTimeout w') = S (nextTimerId w'))).
  { intros w' O'. destruct (resetSilenceTimeout_timers w' O') as (A & B).
    unfold rearmed in A. destruct (autoStopEnabled (optionsRef w')).
    - right. eexists. split; eassumption.
    - left. now split. }
  destruct e; simpl step.
  - left.
    destruct (startListening_frame (captured cb w) options outcome w)
      as (E & _).
    unfold watchdog in E. injection E as -> _ ->. now split.
  - unfold stopListening. destruct (recognitionRef w); [|now left].
    destruct (isListening _); [|now left].
    right. left. simpl. now apply clears.
  - unfold abortListening. destruct (recognitionRef w); [|now left].
    right. left. simpl. now apply clears.
  - now left.
  - now left.
  - right. unfold onstart.
    apply (rearms (with_state _ (with_lastSpeechTimeRef (Some now) w))).
    now apply (owned_frame w).
  - right. unfold onresult. simpl. now apply rearms.
  - now left.
  - right. left. unfold onend. simpl. now apply clears.
  - unfold fireTimeout.
    pose proof (silenceCallback_watchdog (clearTimeout id w)) as E.
    unfold watchdog in E. injection E as -> _ ->. simpl.
    destruct (silenceTimeoutRef w) as [x|] eqn:R.
    + destruct (filter_all_or_none id x (timers w)) as [F|F].
      * intros t Ht. destruct O as (Hown & _).
        specialize (Hown t Ht). congruence.
      * left. now split.
      * right. left. now split.
    + left. destruct O as (Hown & _).
      destruct (timers w) as [|t l] eqn:Et; [now split|].
      specialize (Hown t (or_introl eq_refl)). congruence.
  - right. left. destruct (unmount_disarms w O) as (O' & T & _).
    split; [exact T | now apply unmount_nextTimerId].
  - right. left. unfold remount.
    destruct (mountEffect_frame (unmount w)) as (-> & _ & -> & _).
    destruct (unmount_disarms w O) as (O' & T & _).
    split; [exact T | now apply unmount_nextTimerId].
  - left. unfold runUpdaters. now destruct (queuedRefWrite w).
Qed.

Lemma reachable_tidy h o w :
  reachable h o w -> fresh_ids w /\ List.length (timers w) <= 1.
Proof.
  induction 1 as [|w e R (F & L) P].
  - destruct (mounted_frame h o) as (E & _).
    unfold watchdog in E. injection E as Et _ _.
    unfold fresh_ids. rewrite Et. split; [intros t []| simpl; lia].
  - pose proof (reachable_owned h o w R) as O.
    unfold fresh_ids in *.
    destruct (step_timers e w O) as [(-> & ->)|[(-> & ->)|(d & -> & ->)]].
    + now split.
    + split; [intros t []| simpl; lia].
    + split; [|simpl; lia]. intros t [<-|[]]. simpl. lia.
Qed.

(** X10: in every reachable world at most one timeout is pending; it is
    the one [silenceTimeoutRef] holds, and its identifier is older than
    the next one the browser hands out. *)
Theorem at_most_one_timer
  (h : Host) (o : option SpeechToTextOptions) (w : Hook) :
  reachable h o w ->
  List.length (timers w) <= 1
  /\ forall t, In t (timers w) ->
       silenceTimeoutRef w = Some (fst t) /\ fst t < nextTimerId w.
Proof.
  intros R. destruct (reachable_tidy h o w R) as (F & L).
  destruct (reachable_owned h o w R) as (O & _).
  split; [exact L|]. intros t Ht. split; [now apply O | now apply F].
Qed.

Lemma at_most_one_timer_witness :
  reachable chrome (Some autoStop2s) after_tour
  /\ timers after_tour = [(4, Val 2000%Z)]
  /\ List.length (timers after_tour) <= 1.
Proof.
  assert (R : reachable chrome (Some autoStop2s) after_tour).
  { apply run_reachable; [constructor | vm_compute; reflexivity]. }
  split; [exact R|]. split; [vm_compute; reflexivity|].
  exact (proj1 (at_most_one_timer _ _ after_tour R)).
Defined.

Lemma not_pending_fresh id w :
  fresh_ids w -> pending id w = true -> id <> nextTimerId w.
Proof.
  unfold fresh_ids, pending. intros F P.
  apply existsb_exists in P as (t & Ht & E).
  apply Nat.eqb_eq in E. specialize (F t Ht). lia.
Qed.

(** X11: a start event and a result event both rearm the watchdog: in a
    reachable world, whatever was pending before is no longer pending
    afterwards, and the pending timeouts are exactly one fresh timeout
    with the delay of the working options if the auto-stop is enabled,
    and none otherwise. *)
Theorem start_and_result_rearm
  (h : Host) (o : option SpeechToTextOptions) (w : Hook)
  (event : SpeechRecognitionEvent) (now : Date) :
  reachable h o w ->
  (timers (onstart now w) = rearmed w
   /\ timers (onresult event now w) = rearmed w)
  /\ forall id, pending id w = true ->
       pending id (onstart now w) = false
       /\ pending id (onresult event now w) = false.
Proof.
  intros R.
  pose proof (reachable_owned h o w R) as O.
  destruct (reachable_tidy h o w R) as (F & _).
  assert (A : timers (onstart now w) = rearmed w
              /\ timers (onresult event now w) = rearmed w).
  { split.
    - unfold onstart.
      set (w2 := with_state _ _).
      assert (O2 : timers_owned w2) by now apply (owned_frame w).
      now destruct (resetSilenceTimeout_timers w2 O2) as (-> & _).
    - unfold onresult. simpl.
      now destruct (resetSilenceTimeout_timers w O) as (-> & _). }
  split; [exact A|].
  intros id P. pose proof (not_pending_fresh id w F P) as N.
  unfold pending. destruct A as (-> & ->).
  unfold rearmed. destruct (autoStopEnabled _); simpl; [|now split].
  apply Nat.eqb_neq in N. rewrite Nat.eqb_sym in N. now rewrite N.
Qed.

Lemma start_and_result_rearm_witness :
  reachable chrome (Some autoStop2s) while_listening
  /\ pending 2 while_listening = true
  /\ pending 2 (onresult stale_event 9%Z while_listening) = false
  /\ timers (onresult stale_event 9%Z while_listening) = [(3, Val 2000%Z)].
Proof.
  assert (R : reachable chrome (Some autoStop2s) while_listening).
  { apply run_reachable; [constructor | vm_compute; reflexivity]. }
  assert (P : pending 2 while_listening = true) by (vm_compute; reflexivity).
  destruct (start_and_result_rearm _ _ while_listening stale_event 9%Z R)
    as ((_ & T) & K).
  split; [exact R|]. split; [exact P|].
  split; [exact (proj2 (K 2 P))|].
  rewrite T. vm_compute. reflexivity.
Defined.

(** ** With the auto-stop off *)

Lemma autoStopEnabled_merge (a b : SpeechToTextOptions) :
  autoStopEnabled a = false -> autoStopEnabled b = false ->
  autoStopEnabled (mergeOptions a b) = false.
Proof.
  unfold autoStopEnabled, mergeOptions. simpl.
  now destruct (autoStopOnSilence b).
Qed.

Ltac frame_mountEffect :=
  repeat match goal with
         | |- context [mountEffect ?x] =>
             destruct (mountEffect_frame x)
               as (? & ? & ? & ? & ? & ? & ? & ? & ? & ?);
             generalize dependent (mountEffect x); intros
         end.

Lemma step_off e w :
  watchdog_off w -> possible e w = true -> leaves_autoStop_off e = true ->
  watchdog_off (step e w).
Proof.
  intros (E & T & A) P Q.
  destruct e; simpl step.
  - rewrite startListening_stages.
    assert (M : autoStopEnabled (optionsRef (withOverrides options w)) = false).
    { destruct options as [o|]; simpl; [|exact E].
      simpl in Q. apply negb_true_iff in Q. now apply autoStopEnabled_merge. }
    unfold ensureInstance, configureAndStart.
    destruct options as [o|]; simpl in M |- *;
      settle_matches; frame_mountEffect;
      unfold watchdog_off; simpl in *; repeat split; congruence.
  - unfold_handlers. settle_matches;
      unfold watchdog_off; simpl; rewrite ?T; now repeat split.
  - unfold_handlers. settle_matches;
      unfold watchdog_off; simpl; rewrite ?T; now repeat split.
  - now repeat split.
  - now repeat split.
  - unfold_handlers. settle_matches;
      unfold watchdog_off; simpl in *; rewrite ?T;
      repeat split; congruence.
  - unfold_handlers. settle_matches;
      unfold watchdog_off; simpl in *; rewrite ?T;
      repeat split; congruence.
  - now repeat split.
  - unfold_handlers. settle_matches;
      unfold watchdog_off; simpl; rewrite ?T; now repeat split.
  - simpl in P. unfold pending in P. now rewrite T in P.
  - unfold_handlers. settle_matches;
      unfold watchdog_off; simpl; rewrite ?T; now repeat split.
  - unfold remount.
    assert (U : watchdog_off (unmount w)).
    { unfold_handlers. settle_matches;
        unfold watchdog_off; simpl; rewrite ?T; now repeat split. }
    destruct U as (E' & T' & A').
    destruct (mountEffect_frame (unmount w))
      as (Ft & _ & _ & Fo & _ & _ & Fa & _).
    unfold watchdog_off. now rewrite Ft, Fo, Fa.
  - unfold runUpdaters. destruct (queuedRefWrite w); now repeat split.
Qed.

(** X12: if the initial options leave the auto-stop off and no override
    of a [startListening] call turns it on, then after any feasible
    sequence of events no silence timer is armed and [onAutoStop] was
    never called. *)
Theorem autoStop_off_never_arms
  (h : Host) (o : option SpeechToTextOptions) (es : list Event) :
  autoStopEnabled (initialOptionsRef o) = false ->
  forallb leaves_autoStop_off es = true ->
  feasible es (mounted h o) = true ->
  armed (run es (mounted h o)) = false
  /\ autoStopCalls (run es (mounted h o)) = [].
Proof.
  intros E Q F.
  assert (W : watchdog_off (mounted h o)).
  { unfold mounted.
    destruct (mountEffect_frame (useSpeechToText h o))
      as (Ft & _ & _ & Fo & _ & _ & Fa & _).
    unfold watchdog_off. rewrite Ft, Fo, Fa. now repeat split. }
  assert (G : watchdog_off (run es (mounted h o))).
  { revert W Q F. generalize (mounted h o) as w.
    induction es as [|e es IH]; intros w W Q F; simpl in *; [exact W|].
    apply andb_true_iff in Q as (Qe & Qs).
    apply andb_true_iff in F as (Fe & Fs).
    apply IH; [now apply step_off | exact Qs | exact Fs]. }
  destruct G as (_ & T & A). unfold armed. now rewrite T.
Qed.

Lemma autoStop_off_never_arms_witness :
  autoStopEnabled (initialOptionsRef None) = false
  /\ forallb leaves_autoStop_off tour = true
  /\ feasible tour (mounted chrome None) = true
  /\ armed (run tour (mounted chrome None)) = false.
Proof.
  assert (E : autoStopEnabled (initialOptionsRef None) = false)
    by (vm_compute; reflexivity).
  assert (Q : forallb leaves_autoStop_off tour = true)
    by (vm_compute; reflexivity).
  assert (F : feasible tour (mounted chrome None) = true)
    by (vm_compute; reflexivity).
  split; [exact E|]. split; [exact Q|]. split; [exact F|].
  exact (proj1 (autoStop_off_never_arms chrome None tour E Q F)).
Defined.

(** X13: the options are merged key by key, so passing an
    [autoStopOnSilence] object replaces the default one as a whole: the
    timer armed by the first start event has the [silenceDuration] of the
    object passed, and not the default of 3000 ms when the object has
    none. *)
Theorem nested_autoStop_replaced
  (h : Host) (o : SpeechToTextOptions) (a : AutoStopOnSilence) (now : Date) :
  autoStopOnSilence o = Val a ->
  enabled a = true ->
  timers (onstart now (mounted h (Some o))) = [(1, silenceDuration a)].
Proof.
  intros Ea En.
  pose proof (mounted_owned h (Some o)) as O.
  destruct (mounted_frame h (Some o)) as (W & _).
  unfold watchdog in W. injection W as _ _ Wn.
  assert (Eo : optionsRef (mounted h (Some o)) = mergeOptions DEFAULT_OPTIONS o).
  { unfold mounted.
    now destruct (mountEffect_frame (useSpeechToText h (Some o)))
      as (_ & _ & _ & -> & _). }
  unfold onstart.
  set (w2 := with_state _ _).
  assert (O2 : timers_owned w2) by now apply (owned_frame (mounted h (Some o))).
  destruct (resetSilenceTimeout_timers w2 O2) as (-> & _).
  unfold rearmed, autoStopEnabled, silenceDelay. subst w2. simpl.
  rewrite Eo, Wn. simpl. rewrite Ea. simpl. now rewrite En.
Qed.

Lemma nested_autoStop_replaced_witness :
  autoStopOnSilence autoStopNoDuration =
    Val {| enabled := true; silenceDuration := Absent; onAutoStop := Val 7 |}
  /\ timers (onstart 0%Z (mounted chrome (Some autoStopNoDuration))) =
     [(1, Absent)].
Proof.
  split; [reflexivity|].
  exact (nested_autoStop_replaced chrome autoStopNoDuration
           {| enabled := true; silenceDuration := Absent;
              onAutoStop := Val 7 |} 0%Z eq_refl eq_refl).
Defined.

(** ** The firing watchdog, [stopListening] and teardown *)

Lemma pending_is_current id w :
  timers_owned w -> pending id w = true ->
  silenceTimeoutRef w = Some id
  /\ filter (fun t => negb (Nat.eqb (fst t) id)) (timers w) = [].
Proof.
  intros (Hown & _) P. unfold pending in P.
  apply existsb_exists in P as (t & Ht & E). apply Nat.eqb_eq in E.
  pose proof (Hown t Ht) as R. rewrite E in R.
  split; [exact R|].
  apply filter_all_out. intros t' Ht'. specialize (Hown t' Ht'). congruence.
Qed.

Lemma silenceCallback_effect w :
  state (silenceCallback w) = state w
  /\ recognitionRef (silenceCallback w) = recognitionRef w
  /\ timers (silenceCallback w) = timers w
  /\ commands (silenceCallback w) =
     commands w ++ (if live w then [CmdStop] else [])
  /\ autoStopCalls (silenceCallback w) =
     autoStopCalls w ++
     match autoStopOnSilence (optionsRef w) with
     | Val a =>
         match onAutoStop a with
         | Val cb =>
             if truthy_string (ref_final (transcriptRef w))
             then [(cb, ref_final (transcriptRef w))]
             else []
         | _ => []
         end
     | _ => []
     end.
Proof.
  unfold silenceCallback, live.
  destruct (recognitionRef w) eqn:Er; simpl;
    destruct (autoStopOnSilence (optionsRef w)) as [| |a]; simpl;
    rewrite ?app_nil_r, ?Er; try (now repeat split);
    destruct (onAutoStop a); simpl;
    rewrite ?app_nil_r, ?Er; try (now repeat split);
    destruct (truthy_string (ref_final (transcriptRef w))); simpl;
    rewrite ?app_nil_r, ?Er; now repeat split.
Qed.

(** X14: when the pending silence timer fires in a reachable world, the
    state is untouched (the hook keeps listening until the end event), no
    timer is pending afterwards, a stop command is sent exactly if an
    instance is live, and [onAutoStop] is called at most once: exactly if
    it is defined and the final transcript that [transcriptRef] holds at
    that moment is not empty, and then with that transcript. *)
Theorem watchdog_fire_effect
  (h : Host) (o : option SpeechToTextOptions) (w : Hook) (id : nat) :
  reachable h o w ->
  pending id w = true ->
  state (fireTimeout id w) = state w
  /\ recognitionRef (fireTimeout id w) = recognitionRef w
  /\ armed (fireTimeout id w) = false
  /\ commands (fireTimeout id w) =
     commands w ++ (if live w then [CmdStop] else [])
  /\ autoStopCalls (fireTimeout id w) = autoStopCalls w ++ autoStopCall w.
Proof.
  intros R P.
  pose proof (reachable_owned h o w R) as O.
  destruct (pending_is_current id w O P) as (_ & F).
  destruct (silenceCallback_effect (clearTimeout id w))
    as (Es & Er & Et & Ec & Ea).
  unfold fireTimeout, armed. rewrite Es, Er, Et, Ec, Ea.
  unfold autoStopCall, live, clearTimeout. simpl. rewrite F.
  now repeat split.
Qed.

Lemma watchdog_fire_effect_witness :
  reachable chrome (Some autoStopNoDuration) after_one_final_with_callback
  /\ pending 2 after_one_final_with_callback = true
  /\ commands (fireTimeout 2 after_one_final_with_callback) =
     [CmdStart; CmdStop]
  /\ autoStopCalls (fireTimeout 2 after_one_final_with_callback) =
     [(7, "hello ")].
Proof.
  assert (R : reachable chrome (Some autoStopNoDuration)
                after_one_final_with_callback).
  { apply run_reachable; [constructor | vm_compute; reflexivity]. }
  assert (P : pending 2 after_one_final_with_callback = true)
    by (vm_compute; reflexivity).
  destruct (watchdog_fire_effect _ _ after_one_final_with_callback 2 R P)
    as (_ & _ & _ & C & A).
  split; [exact R|]. split; [exact P|].
  rewrite C, A. vm_compute. split; reflexivity.
Defined.

(** X15: [stopListening] never touches the state or the instance.  In a
    reachable world with a live instance, a [stopListening] whose render
    captured the listening flag set leaves no timer pending and sends
    one stop command; in every other case, also that of a callback of a
    render that was not listening called while the hook listens, it
    does nothing at all. *)
Theorem stopListening_effect
  (h : Host) (o : option SpeechToTextOptions)
  (rendered : SpeechToTextState) (w : Hook) :
  reachable h o w ->
  state (stopListening rendered w) = state w
  /\ recognitionRef (stopListening rendered w) = recognitionRef w
  /\ if live w && isListening rendered
     then armed (stopListening rendered w) = false
          /\ commands (stopListening rendered w) = commands w ++ [CmdStop]
     else stopListening rendered w = w.
Proof.
  intros R. pose proof (reachable_owned h o w R) as O.
  destruct (clearSilenceTimeout_disarms w O) as (Ht & _).
  pose proof (clearSilenceTimeout_rest w) as E.
  unfold beyond_watchdog in E. injection E as _ Es Er _ _ _ Ec _ _ _.
  unfold stopListening, live, armed.
  destruct (recognitionRef w) eqn:R0; simpl; [|now repeat split].
  destruct (isListening rendered) eqn:L0; simpl; [|now repeat split].
  rewrite Ht, Es, Er, Ec. now repeat split.
Qed.

Lemma stopListening_effect_witness :
  reachable chrome (Some autoStop2s) while_listening
  /\ armed while_listening = true
  /\ armed (stopListening (state while_listening) while_listening) = false
  /\ commands (stopListening (state while_listening) while_listening) =
     [CmdStart; CmdStop]
  /\ isListening
       (state (stopListening (state while_listening) while_listening)) =
     true.
Proof.
  assert (R : reachable chrome (Some autoStop2s) while_listening).
  { apply run_reachable; [constructor | vm_compute; reflexivity]. }
  destruct (stopListening_effect _ _ (state while_listening)
              while_listening R) as (S & _ & K).
  change (live while_listening && isListening (state while_listening))
    with true in K.
  destruct K as (A & C).
  split; [exact R|]. split; [vm_compute; reflexivity|].
  split; [exact A|]. split; [exact C|].
  rewrite S. vm_compute. reflexivity.
Defined.

(** The [stopListening] kept from the idle render, called while the hook
    listens with a live instance and an armed timer: nothing is stopped
    and nothing is disarmed. *)
Example stale_stopListening_does_nothing :
  isListening (state while_listening) = true
  /\ live while_listening = true
  /\ armed while_listening = true
  /\ isListening idle_render = false
  /\ step (StopListening (EarlierRender idle_render)) while_listening =
     while_listening.
Proof. vm_compute. repeat split. Qed.

Lemma unmount_nothing_left w :
  recognitionRef w = None -> silenceTimeoutRef w = None -> unmount w = w.
Proof.
  intros R T.
  assert (C : clearSilenceTimeout w = w)
    by (unfold clearSilenceTimeout; now rewrite T).
  unfold unmount, cleanupUnmount, cleanupInitialize.
  rewrite R, C, R. exact C.
Qed.

(** X16: teardown in a reachable world leaves the state as it is, drops
    the instance, leaves no timer pending, and sends exactly one abort if
    an instance was live and none otherwise (the second cleanup finds the
    ref already cleared); a second teardown changes nothing. *)
Theorem unmount_effect
  (h : Host) (o : option SpeechToTextOptions) (w : Hook) :
  reachable h o w ->
  state (unmount w) = state w
  /\ recognitionRef (unmount w) = None
  /\ silenceTimeoutRef (unmount w) = None
  /\ armed (unmount w) = false
  /\ commands (unmount w) = commands w ++ (if live w then [CmdAbort] else [])
  /\ unmount (unmount w) = unmount w.
Proof.
  intros R. pose proof (reachable_owned h o w R) as O.
  assert (A : state (unmount w) = state w
              /\ recognitionRef (unmount w) = None
              /\ silenceTimeoutRef (unmount w) = None
              /\ armed (unmount w) = false
              /\ commands (unmount w) =
                 commands w ++ (if live w then [CmdAbort] else [])).
  { destruct (unmount_disarms w O) as (_ & T & S).
    unfold armed. rewrite T. split; [exact S|].
    destruct O as (_ & Hz & _).
    unfold unmount, cleanupUnmount, cleanupInitialize, clearSilenceTimeout,
      live.
    destruct (recognitionRef w) eqn:Er; simpl;
      destruct (silenceTimeoutRef w) as [[|n]|] eqn:Et; simpl;
      rewrite ?Er, ?Et; simpl; rewrite ?app_nil_r;
      try (now elim Hz); now repeat split. }
  destruct A as (S & Rn & Tn & Ar & C).
  repeat split; try assumption.
  now apply unmount_nothing_left.
Qed.

Lemma unmount_effect_witness :
  reachable chrome (Some autoStop2s) while_listening
  /\ commands (unmount while_listening) = [CmdStart; CmdAbort]
  /\ armed (unmount while_listening) = false
  /\ unmount (unmount while_listening) = unmount while_listening.
Proof.
  assert (R : reachable chrome (Some autoStop2s) while_listening).
  { apply run_reachable; [constructor | vm_compute; reflexivity]. }
  destruct (unmount_effect _ _ while_listening R) as (_ & _ & _ & A & C & I).
  split; [exact R|].
  split; [rewrite C; vm_compute; reflexivity|].
  split; [exact A | exact I].
Defined.

(** ** Event handlers keep to themselves *)

(** X17: the handlers of the capability's events never send a command,
    never replace or reconfigure the instance, and never change the
    working options: only the public operations and the watchdog talk to
    the capability. *)
Theorem handlers_send_no_command
  (w : Hook) (now : Date) (event : SpeechRecognitionEvent) (raw : string) :
  (commands (onstart now w) = commands w
   /\ recognitionRef (onstart now w) = recognitionRef w
   /\ optionsRef (onstart now w) = optionsRef w)
  /\ (commands (onresult event now w) = commands w
      /\ recognitionRef (onresult event now w) = recognitionRef w
      /\ optionsRef (onresult event now w) = optionsRef w)
  /\ (commands (onerror raw w) = commands w
      /\ recognitionRef (onerror raw w) = recognitionRef w
      /\ optionsRef (onerror raw w) = optionsRef w)
  /\ (commands (onend w) = commands w
      /\ recognitionRef (onend w) = recognitionRef w
      /\ optionsRef (onend w) = optionsRef w).
Proof.
  pose proof (resetSilenceTimeout_rest
                (with_state
                   (fun prev => set_error None (set_isListening true prev))
                   (with_lastSpeechTimeRef (Some now) w))) as E1.
  pose proof (resetSilenceTimeout_rest w) as E2.
  pose proof (clearSilenceTimeout_rest w) as E3.
  unfold beyond_watchdog in *.
  injection E1 as _ _ R1 _ _ O1 C1 _ _ _.
  injection E2 as _ _ R2 _ _ O2 C2 _ _ _.
  injection E3 as _ _ R3 _ _ O3 C3 _ _ _.
  unfold onstart, onresult, onerror, onend. simpl.
  now repeat split.
Qed.

(** ** The results log *)

Lemma step_results_suffix e w :
  e <> ResetTranscript ->
  exists l, results (state (step e w)) = results (state w) ++ l.
Proof.
  intros Hne.
  destruct e; simpl step;
    match goal with
    | |- context [onresult] => idtac
    | _ => exists []; rewrite app_nil_r
    end.
  - now destruct (startListening_transcripts (captured cb w) options
                    outcome w) as (_ & _ & _ & H).
  - unfold stopListening. destruct (recognitionRef w); [|reflexivity].
    destruct (isListening _); [|reflexivity].
    simpl. now rewrite clearSilenceTimeout_state.
  - unfold abortListening. destruct (recognitionRef w); [|reflexivity].
    simpl. now rewrite clearSilenceTimeout_state.
  - now elim Hne.
  - reflexivity.
  - unfold onstart. now rewrite resetSilenceTimeout_state.
  - exists (map (materialize now) (processed event)).
    apply onresult_fields.
  - reflexivity.
  - unfold onend. simpl. now rewrite clearSilenceTimeout_state.
  - unfold fireTimeout. now rewrite silenceCallback_state.
  - now destruct (unmount_support w) as (_ & -> & _).
  - unfold remount.
    destruct (mountEffect_frame (unmount w))
      as (_ & _ & _ & _ & _ & _ & _ & _ & _ & ->).
    now destruct (unmount_support w) as (_ & -> & _).
  - unfold runUpdaters. now destruct (queuedRefWrite w).
Qed.

(** X18: the results log is append-only: over any sequence of events
    without [resetTranscript], the log at the start is an initial segment
    of the log at the end, so no entry is ever dropped or rewritten. *)
Theorem results_log_append_only (es : list Event) (w : Hook) :
  ~ In ResetTranscript es ->
  exists l, results (state (run es w)) = results (state w) ++ l.
Proof.
  revert w. induction es as [|e es IH]; intros w Hno.
  - exists []. simpl. now rewrite app_nil_r.
  - destruct (IH (step e w)) as (l2 & E2).
    { intros H. apply Hno. now right. }
    destruct (step_results_suffix e w) as (l1 & E1).
    { intros ->. apply Hno. now left. }
    exists (l1 ++ l2).
    change (run (e :: es) w) with (run es (step e w)).
    rewrite E2, E1. now rewrite app_assoc.
Qed.

Lemma results_log_append_only_witness :
  ~ In ResetTranscript second_final_and_end
  /\ List.length (results (state after_one_final)) = 1
  /\ exists l,
       results (state (run second_final_and_end after_one_final)) =
       results (state after_one_final) ++ l.
Proof.
  assert (N : ~ In ResetTranscript second_final_and_end).
  { unfold second_final_and_end. simpl. intuition discriminate. }
  split; [exact N|]. split; [vm_compute; reflexivity|].
  exact (results_log_append_only second_final_and_end after_one_final N).
Defined.

(** X19: a result event whose result index is at or past the end of its
    result list adds nothing: the final transcript and the results log
    stay as they are, while the interim and the combined transcript are
    emptied. *)
Theorem onresult_nothing_new
  (event : SpeechRecognitionEvent) (now : Date) (w : Hook) :
  List.length (ev_results event) <= resultIndex event ->
  finalTranscript (state (onresult event now w)) = finalTranscript (state w)
  /\ results (state (onresult event now w)) = results (state w)
  /\ interimTranscript (state (onresult event now w)) = ""
  /\ transcript (state (onresult event now w)) = "".
Proof.
  intros L.
  destruct (onresult_fields event now w) as (F & I & R).
  pose proof (onresult_transcript event now w) as T.
  unfold processed in *. rewrite skipn_all2 in * by exact L.
  simpl in *. rewrite append_empty_r in F. rewrite app_nil_r in R.
  now repeat split.
Qed.

Lemma onresult_nothing_new_witness :
  List.length (ev_results stale_event) <= resultIndex stale_event
  /\ interimTranscript (state while_listening) = "hel"
  /\ interimTranscript (state (onresult stale_event 9%Z while_listening)) =
     "".
Proof.
  assert (L : List.length (ev_results stale_event) <= resultIndex stale_event)
    by (vm_compute; lia).
  split; [exact L|]. split; [vm_compute; reflexivity|].
  now destruct (onresult_nothing_new stale_event 9%Z while_listening L)
    as (_ & _ & I & _).
Defined.

(** ** Error codes *)

Lemma length_map_string f s :
  String.length (map_string f s) = String.length s.
Proof. induction s as [|c s IH]; simpl; [reflexivity | now rewrite IH]. Qed.

Lemma replace_hyphen_counts (s : string) :
  hyphens (JS.replace "-" "_" s) = pred (hyphens s)
  /\ String.length (JS.replace "-" "_" s) = String.length s.
Proof.
  induction s as [|c s (IH1 & IH2)]; [now split|].
  rewrite replace_cons, prefix_char, Ascii.eqb_sym.
  cbn [hyphens]. destruct (c =? "-")%char eqn:E.
  - now split.
  - cbn [hyphens String.length]. rewrite E, IH1, IH2. now split.
Qed.

(** X20: the code recorded by an error event has the length of the raw
    code and exactly one hyphen less than it (none less if the raw code
    has none): one hyphen is turned into an underscore, the others stay. *)
Theorem errorCode_drops_one_hyphen (raw : string) :
  hyphens (errorCode raw) = pred (hyphens raw)
  /\ String.length (errorCode raw) = String.length raw.
Proof.
  unfold errorCode.
  destruct (replace_hyphen_counts (toUpperCase raw)) as (-> & ->).
  rewrite hyphens_toUpperCase. unfold toUpperCase.
  now rewrite length_map_string.
Qed.

(** X21: for every raw code with at most one hyphen, recognized by the
    handler or not, the code recorded by an error event is the raw code in
    upper case with its hyphen turned into an underscore. *)
Theorem errorCode_normalizes_single_hyphen (raw : string) (w : Hook) :
  hyphens raw <= 1 ->
  option_map code (error (state (onerror raw w))) =
  Some (spec_normalizedCode raw).
Proof.
  intros H. simpl. f_equal.
  unfold errorCode, spec_normalizedCode.
  apply replace_one_hyphen. now rewrite hyphens_toUpperCase.
Qed.

Lemma errorCode_normalizes_single_hyphen_witness :
  hyphens "not-allowed" <= 1
  /\ spec_normalizedCode "not-allowed" = "NOT_ALLOWED"
  /\ option_map code (error (state (onerror "not-allowed" while_listening))) =
     Some (spec_normalizedCode "not-allowed").
Proof.
  assert (H : hyphens "not-allowed" <= 1) by (vm_compute; lia).
  split; [exact H|]. split; [vm_compute; reflexivity|].
  exact (errorCode_normalizes_single_hyphen "not-allowed" while_listening H).
Defined.



(** ** Listening, support and starting *)

(** X23: in every reachable world a listening hook is a supported one,
    and some capability instance has been constructed. *)
Theorem listening_implies_supported
  (h : Host) (o : option SpeechToTextOptions) (w : Hook) :
  reachable h o w ->
  isListening (state w) = true ->
  isSupported (state w) = true /\ 0 < constructed w.
Proof.
  intros R L.
  destruct (reachable_listening_supported h o w R) as (_ & Hl & Hc).
  split; [now apply Hc, Hl | now apply Hl].
Qed.

Lemma listening_implies_supported_witness :
  reachable chrome (Some autoStop2s) after_tour
  /\ isListening (state after_tour) = true
  /\ isSupported (state after_tour) = true
  /\ 0 < constructed after_tour.
Proof.
  assert (R : reachable chrome (Some autoStop2s) after_tour).
  { apply run_reachable; [constructor | vm_compute; reflexivity]. }
  assert (L : isListening (state after_tour) = true)
    by (vm_compute; reflexivity).
  split; [exact R|]. split; [exact L|].
  exact (listening_implies_supported _ _ after_tour R L).
Defined.




(** The [startListening] of the very first render, whose state says
    unsupported until initialization has run, records NOT_SUPPORTED and
    starts nothing, also when it is called after initialization in a
    usable host. *)
Example first_render_startListening_not_supported :
  isSupported (state (mounted chrome None)) = true
  /\ isSupported (state (useSpeechToText chrome None)) = false
  /\ commands
       (startListening (state (useSpeechToText chrome None)) None Started
          (mounted chrome None)) = []
  /\ option_map code
       (error
          (state
             (startListening (state (useSpeechToText chrome None)) None
                Started (mounted chrome None)))) = Some "NOT_SUPPORTED".
Proof. vm_compute. repeat split. Qed.

(** ** [abortListening] on a hook that was not torn down *)

Lemma mountEffect_held h w :
  listening_supported h w -> timers w = [] -> held (mountEffect w).
Proof.
  intros LS T.
  pose proof (initializeSpeechRecognition_support w) as S.
  destruct (mountEffect_frame w) as (Ft & _).
  unfold held. rewrite Ft.
  unfold mountEffect in *.
  destruct (initializeSpeechRecognition w) as [r w'] eqn:E. simpl in *.
  intros ->. split; [|exact T].
  destruct S as [(U & C & _)|(NU & C & _)].
  - unfold initializeSpeechRecognition in E.
    destruct U as (U1 & U2). rewrite U1, U2 in E. simpl in E. discriminate.
  - rewrite C. destruct LS as (Hh & _ & Hc).
    destruct (constructed w); [reflexivity|].
    destruct Hc as (_ & U); [lia|]. rewrite <- Hh in U. contradiction.
Qed.

Lemma step_held h e w :
  listening_supported h w -> timers_owned w ->
  possible e w = true -> teardown e = false ->
  held w -> held (step e w).
Proof.
  intros LS O P NU H.
  destruct e; simpl step; simpl in P; try discriminate NU.
  - rewrite startListening_stages.
    destruct (negb _); [exact H|].
    destruct (isListening _); [exact H|].
    cbv zeta.
    set (w1 := withOverrides options w).
    assert (H1 : held w1) by (subst w1; destruct options; exact H).
    assert (LS1 : listening_supported h w1)
      by (subst w1; destruct options; exact LS).
    assert (H2 : held (ensureInstance w1)).
    { unfold ensureInstance. destruct (recognitionRef w1) eqn:R1; [exact H1|].
      apply (mountEffect_held h); [exact LS1|]. now apply H1. }
    destruct (recognitionRef (ensureInstance w1)) eqn:R2; [|exact H2].
    unfold held, configureAndStart. destruct outcome; simpl; discriminate.
  - unfold stopListening. destruct (recognitionRef w) eqn:R; [|exact H].
    destruct (isListening _); [|exact H].
    unfold held. simpl.
    pose proof (clearSilenceTimeout_rest w) as E.
    unfold beyond_watchdog in E. injection E as _ _ Er _ _ _ _ _ _ _.
    rewrite Er, R. discriminate.
  - unfold abortListening. destruct (recognitionRef w) eqn:R; [|exact H].
    unfold held. simpl.
    pose proof (clearSilenceTimeout_rest w) as E.
    unfold beyond_watchdog in E. injection E as _ _ Er _ _ _ _ _ _ _.
    rewrite Er, R. discriminate.
  - exact H.
  - exact H.
  - apply Nat.ltb_lt in P. unfold held, onstart.
    pose proof (resetSilenceTimeout_rest
                  (with_state
                     (fun prev => set_error None (set_isListening true prev))
                     (with_lastSpeechTimeRef (Some now) w))) as E.
    unfold beyond_watchdog in E. injection E as _ _ Er _ _ _ _ _ Ec _.
    rewrite Er, Ec. simpl. intros R. apply H in R. lia.
  - apply Nat.ltb_lt in P. unfold held, onresult. simpl.
    pose proof (resetSilenceTimeout_rest w) as E.
    unfold beyond_watchdog in E. injection E as _ _ Er _ _ _ _ _ Ec _.
    rewrite Er, Ec. intros R. apply H in R. lia.
  - exact H.
  - apply Nat.ltb_lt in P. unfold held, onend. simpl.
    pose proof (clearSilenceTimeout_rest w) as E.
    unfold beyond_watchdog in E. injection E as _ _ Er _ _ _ _ _ Ec _.
    rewrite Er, Ec. intros R. apply H in R. lia.
  - unfold held, fireTimeout.
    destruct (silenceCallback_effect (clearTimeout id w))
      as (_ & -> & _).
    simpl. intros R. apply H in R as (_ & T).
    unfold pending in P. rewrite T in P. discriminate.
  - unfold remount. apply (mountEffect_held h).
    + now apply unmount_supported.
    + now apply unmount_disarms.
  - unfold runUpdaters. destruct (queuedRefWrite w); exact H.
Qed.

Lemma attached_reachable h o w : attached h o w -> reachable h o w.
Proof. induction 1 as [|w e _ IH P _]; now constructor. Qed.

Lemma attached_held h o w : attached h o w -> held w.
Proof.
  induction 1 as [|w e A IH P T].
  - apply (mountEffect_held h); [|reflexivity].
    unfold listening_supported. simpl.
    split; [reflexivity|]. split; [discriminate|].
    intros X. inversion X.
  - apply attached_reachable in A.
    apply (step_held h); try assumption.
    + now apply (reachable_listening_supported h o).
    + now apply (reachable_owned h o).
Qed.

Lemma run_attached h o es :
  forall w, attached h o w -> stays_attached es w = true ->
            attached h o (run es w).
Proof.
  induction es as [|e es IH]; intros w R F; simpl in *; [exact R|].
  apply andb_true_iff in F as (Fe & Fes).
  apply andb_true_iff in Fe as (Fp & Fc).
  apply negb_true_iff in Fc.
  apply IH; [now constructor | exact Fes].
Qed.

(** X26: as long as the hook has not been torn down, a silence timer is
    armed only while an instance is live, and [abortListening] does what
    its comment says: it leaves the state as it is, leaves no timer
    armed, and sends one abort command if an instance is live and none
    otherwise. *)
Theorem abortListening_while_attached
  (h : Host) (o : option SpeechToTextOptions) (w : Hook) :
  attached h o w ->
  (armed w = true -> live w = true)
  /\ state (abortListening w) = state w
  /\ armed (abortListening w) = false
  /\ commands (abortListening w) =
     commands w ++ (if live w then [CmdAbort] else []).
Proof.
  intros A. pose proof (attached_held h o w A) as H.
  apply attached_reachable in A.
  destruct (abortListening_effect h o w A) as (Es & _ & _ & _ & K).
  unfold live, held in *.
  destruct (recognitionRef w) eqn:R.
  - destruct K as (Ka & _ & Kc). now repeat split.
  - destruct H as (_ & T); [reflexivity|].
    rewrite K, app_nil_r. unfold armed. rewrite T.
    repeat split. discriminate.
Qed.

Lemma abortListening_while_attached_witness :
  attached chrome (Some autoStop2s) after_error
  /\ armed after_error = true
  /\ armed (abortListening after_error) = false
  /\ commands (abortListening after_error) = [CmdStart; CmdAbort].
Proof.
  assert (A : attached chrome (Some autoStop2s) after_error).
  { apply run_attached; [constructor | vm_compute; reflexivity]. }
  destruct (abortListening_while_attached _ _ after_error A)
    as (_ & _ & Ka & Kc).
  split; [exact A|]. split; [vm_compute; reflexivity|].
  split; [exact Ka|]. rewrite Kc. vm_compute. reflexivity.
Defined.

(** ** Merging options *)

Lemma spread_assoc {T} (a b c : optional T) :
  spread (spread a b) c = spread a (spread b c).
Proof. destruct c; destruct b; reflexivity. Qed.

Lemma spread_absent_l {T} (a : optional T) : spread Absent a = a.
Proof. now destruct a. Qed.

(** X25: merging options is associative and an object without keys is
    neutral on both sides, so overrides given over several calls add up
    to the override that merges them, later keys winning. *)
Theorem mergeOptions_monoid (a b c : SpeechToTextOptions) :
  mergeOptions (mergeOptions a b) c = mergeOptions a (mergeOptions b c)
  /\ mergeOptions a noOptions = a
  /\ mergeOptions noOptions a = a.
Proof.
  unfold mergeOptions. simpl.
  rewrite !spread_assoc, !spread_absent_l.
  destruct a. now repeat split.
Qed.
